(** * Lightning transport of electrum-civx: [lib/lnbase.py]

    A shallow embedding of the BOLT 8 initiator of [lib/lnbase.py]: the byte
    helpers [decode] and [encode], the AEAD nonce, the HKDF step, the Act 1
    message, the framing of transport messages and the driver [main_loop].

    Byte strings are lists of integers, each byte a [Z] in [0, 256).  Python
    exceptions are values of [exn]; a computation that can raise returns a
    [result]. *)

From Stdlib Require Import String Ascii.
From Stdlib Require Import ZArith List Lia Bool.
Import ListNotations.
Local Open Scope Z_scope.

(** ** Bytes, exceptions *)

Definition byte := Z.
Definition bytes := list Z.

Definition is_byte (b : Z) : Prop := 0 <= b < 256.
Definition wf_bytes (bs : bytes) : Prop := Forall is_byte bs.

Definition len (bs : bytes) : Z := Z.of_nat (length bs).

(** Python's slice [b[i:j]] for [0 <= i], [0 <= j]. *)
Definition slice (i j : nat) (bs : bytes) : bytes := firstn (j - i) (skipn i bs).

Inductive exn : Type :=
| AssertionError   (* a failed [assert] *)
| ValueError       (* bytes.fromhex on a bad string, a key or nonce of the wrong size *)
| InvalidTag       (* cryptography.exceptions.InvalidTag *)
| InvalidKey.      (* what the elliptic-curve helpers raise on a bad key or point *)

Inductive result (A : Type) : Type :=
| Ok (a : A)
| Raise (e : exn).
Arguments Ok {A} a.
Arguments Raise {A} e.

Definition rbind {A B : Type} (r : result A) (f : A -> result B) : result B :=
  match r with
  | Ok a => f a
  | Raise e => Raise e
  end.

Declare Scope result_scope.
Delimit Scope result_scope with result.
Notation "x <- r ;; k" := (rbind r (fun x => k))
  (at level 61, r at next level, right associativity) : result_scope.
Notation "' p <- r ;; k" := (rbind r (fun p => k))
  (at level 61, p pattern, r at next level, right associativity) : result_scope.

Definition assert_ (b : bool) : result unit :=
  if b then Ok tt else Raise AssertionError.

(** ** [decode]: the integer value of a byte string, big-endian

    [[
    result = 0
    while len(string) > 0:
        result *= 256
        result += string[0]
        string = string[1:]
    ]] *)

Fixpoint decode_loop (result : Z) (string : bytes) : Z :=
  match string with
  | [] => result
  | b :: rest => decode_loop (result * 256 + b) rest
  end.

Definition decode (string : bytes) : Z := decode_loop 0 string.

(** ** Hexadecimal strings

    [encode] goes through three helpers of [electrum.bitcoin] and Python's
    [hex], [bytes.fromhex] and [bytes.hex]. *)

Definition hexstr := list ascii.

Definition hex_digit (d : Z) : ascii :=
  if d <? 10 then ascii_of_nat (Z.to_nat (48 + d))      (* '0'..'9' *)
  else ascii_of_nat (Z.to_nat (87 + d)).                 (* 'a'..'f' *)

Definition hex_val (c : ascii) : option Z :=
  let n := Z.of_nat (nat_of_ascii c) in
  if (48 <=? n) && (n <=? 57) then Some (n - 48)
  else if (97 <=? n) && (n <=? 102) then Some (n - 87)
  else if (65 <=? n) && (n <=? 70) then Some (n - 55)
  else None.

(** The [k] lowest hexadecimal digits of [n], most significant first. *)
Fixpoint be_hex (k : nat) (n : Z) : hexstr :=
  match k with
  | O => []
  | S k' => be_hex k' (n / 16) ++ [hex_digit (n mod 16)]
  end.

(** Python's [hex(i)[2:]] for [i >= 0]: the digits of [i] with no leading
    zero, ["0"] for zero. *)
Definition hex_ (i : Z) : hexstr :=
  be_hex (S (Z.to_nat (Z.log2 i / 4))) i.

(** [bytes.fromhex]: two digits a byte; an odd number of digits or a
    character that is no digit raises [ValueError]. *)
Fixpoint bfh (s : hexstr) : result bytes :=
  match s with
  | [] => Ok []
  | [_] => Raise ValueError
  | h :: l :: rest =>
      match hex_val h, hex_val l with
      | Some a, Some b =>
          match bfh rest with
          | Ok bs => Ok (16 * a + b :: bs)
          | Raise e => Raise e
          end
      | _, _ => Raise ValueError
      end
  end.

(** [bh2u]: [bytes.hex], two lower-case digits a byte. *)
Definition bh2u (bs : bytes) : hexstr :=
  flat_map (fun b => [hex_digit (b / 16); hex_digit (b mod 16)]) bs.

(** Modelled from the spec: [electrum.bitcoin.rev_hex] is not under src/;
    it reverses the bytes a hexadecimal string stands for,
    [bh2u(bfh(s)[::-1])]. *)
Definition rev_hex (s : hexstr) : result hexstr :=
  match bfh s with
  | Ok bs => Ok (bh2u (rev bs))
  | Raise e => Raise e
  end.

(** Modelled from the spec: [electrum.bitcoin.int_to_hex] is not under src/;
    the digits of [i] padded on the left with ['0'] to [2 * length] digits,
    then byte-reversed: [s = hex(i)[2:]; s = "0"*(2*length - len(s)) + s;
    rev_hex(s)].  A negative [i] leaves the ['x'] of ['-0x..'] in the string. *)
Definition int_to_hex (i : Z) (length : nat) : result hexstr :=
  if i <? 0 then Raise ValueError
  else
    let s := hex_ i in
    rev_hex (repeat "0"%char (2 * length - List.length s) ++ s).

(** ** [encode]: [bfh(rev_hex(int_to_hex(n, s)))] *)

Definition encode (n : Z) (s : nat) : result bytes :=
  (h <- int_to_hex n s ;;
   r <- rev_hex h ;;
   bfh r)%result.

(** ** [get_nonce_bytes]

    [[
    nb = b"\x00"*4
    nb2 = encode(n, 8)
    nb2 = bytearray(nb2)
    nb2.reverse()
    return nb + nb2
    ]] *)

Definition get_nonce_bytes (n : Z) : result bytes :=
  (nb2 <- encode n 8 ;;
   Ok (repeat 0 4 ++ rev nb2))%result.

(** * The library primitives

    [hashlib.sha256], [hmac] and [cryptography]'s [ChaCha20Poly1305] are not
    code of the repository: they are modelled by the functions of FIPS 180-4,
    RFC 2104 and RFC 8439 on byte lists.  Each model is run on the test
    vectors of its standard below. *)

Definition w32 (x : Z) : Z := x mod 2 ^ 32.

(** The [k] low bytes of [n], least significant first, and most significant
    first. *)
Fixpoint le_bytes (k : nat) (n : Z) : bytes :=
  match k with
  | O => []
  | S k' => n mod 256 :: le_bytes k' (n / 256)
  end.

Definition be_bytes (k : nat) (n : Z) : bytes := rev (le_bytes k n).

Fixpoint le_num (bs : bytes) : Z :=
  match bs with
  | [] => 0
  | b :: rest => b + 256 * le_num rest
  end.

Definition xor_bytes (a b : bytes) : bytes :=
  map (fun p => Z.lxor (fst p) (snd p)) (combine a b).

(** The list cut into pieces of [n] elements, the last one shorter. *)
Fixpoint chunks_fuel {A : Type} (fuel n : nat) (l : list A) : list (list A) :=
  match fuel, l with
  | O, _ | _, [] => []
  | S f, _ => firstn n l :: chunks_fuel f n (skipn n l)
  end.

Definition chunks {A : Type} (n : nat) (l : list A) : list (list A) :=
  chunks_fuel (length l) n l.

Module SHA256.

Definition rotr (n x : Z) : Z :=
  Z.lor (Z.shiftr x n) (w32 (Z.shiftl x (32 - n))).

Definition Ch (x y z : Z) : Z :=
  Z.lxor (Z.land x y) (Z.land (Z.lxor x (2 ^ 32 - 1)) z).
Definition Maj (x y z : Z) : Z :=
  Z.lxor (Z.lxor (Z.land x y) (Z.land x z)) (Z.land y z).
Definition Sigma0 (x : Z) : Z := Z.lxor (Z.lxor (rotr 2 x) (rotr 13 x)) (rotr 22 x).
Definition Sigma1 (x : Z) : Z := Z.lxor (Z.lxor (rotr 6 x) (rotr 11 x)) (rotr 25 x).
Definition sigma0 (x : Z) : Z := Z.lxor (Z.lxor (rotr 7 x) (rotr 18 x)) (Z.shiftr x 3).
Definition sigma1 (x : Z) : Z := Z.lxor (Z.lxor (rotr 17 x) (rotr 19 x)) (Z.shiftr x 10).

(** The constants are the fractional bits of the square and cube roots
    of the first primes. *)
Definition is_prime (n : nat) : bool :=
  forallb (fun d => negb (Nat.eqb (Nat.modulo n d) 0)) (seq 2 (n - 2)).

Definition primes64 : list Z :=
  Eval vm_compute in map Z.of_nat (filter is_prime (seq 2 310)).

(** The integer cube root, one bit at a time from bit [k - 1] down. *)
Fixpoint icbrt (k : nat) (r n : Z) : Z :=
  match k with
  | O => r
  | S k' =>
      let r' := r + 2 ^ Z.of_nat k' in
      icbrt k' (if r' * r' * r' <=? n then r' else r) n
  end.

Definition K : list Z :=
  Eval vm_compute in map (fun p => w32 (icbrt 40 0 (p * 2 ^ 96))) primes64.

Definition H0 : list Z :=
  Eval vm_compute in map (fun p => w32 (Z.sqrt (p * 2 ^ 64))) (firstn 8 primes64).

(** Padding: [0x80], zeros up to 56 modulo 64, the bit length on 8 bytes. *)
Definition pad (m : bytes) : bytes :=
  let l := Z.of_nat (length m) in
  m ++ [128] ++ repeat 0 (Z.to_nat ((55 - l) mod 64)) ++ be_bytes 8 (8 * l).

Definition be_word (b : bytes) : Z := le_num (rev b).

(** The message schedule, latest word first. *)
Fixpoint schedule (n : nat) (ws : list Z) : list Z :=
  match n with
  | O => ws
  | S n' =>
      let w := w32 (sigma1 (nth 1 ws 0) + nth 6 ws 0
                    + sigma0 (nth 14 ws 0) + nth 15 ws 0) in
      schedule n' (w :: ws)
  end.

Definition state : Type := (Z * Z * Z * Z * Z * Z * Z * Z)%type.

Definition round (s : state) (kw : Z * Z) : state :=
  let '(a, b, c, d, e, f, g, h) := s in
  let t1 := h + Sigma1 e + Ch e f g + fst kw + snd kw in
  let t2 := Sigma0 a + Maj a b c in
  (w32 (t1 + t2), a, b, c, w32 (d + t1), e, f, g).

Definition compress (s : state) (block : bytes) : state :=
  let w16 := map be_word (chunks 4 block) in
  let ws := rev (schedule 48 (rev w16)) in
  let '(a, b, c, d, e, f, g, h) := s in
  let '(a', b', c', d', e', f', g', h') := fold_left round (combine K ws) s in
  (w32 (a + a'), w32 (b + b'), w32 (c + c'), w32 (d + d'),
   w32 (e + e'), w32 (f + f'), w32 (g + g'), w32 (h + h')).

Definition init : state :=
  (nth 0 H0 0, nth 1 H0 0, nth 2 H0 0, nth 3 H0 0,
   nth 4 H0 0, nth 5 H0 0, nth 6 H0 0, nth 7 H0 0).

Definition digest_of (s : state) : bytes :=
  let '(a, b, c, d, e, f, g, h) := s in
  be_bytes 4 a ++ be_bytes 4 b ++ be_bytes 4 c ++ be_bytes 4 d ++
  be_bytes 4 e ++ be_bytes 4 f ++ be_bytes 4 g ++ be_bytes 4 h.

Definition sha256 (m : bytes) : bytes :=
  digest_of (fold_left compress (chunks 64 (pad m)) init).

End SHA256.

Module HMAC.

(** RFC 2104 with SHA-256, block size 64. *)
Definition block_key (key : bytes) : bytes :=
  let k := if (64 <? len key) then SHA256.sha256 key else key in
  k ++ repeat 0 (64 - length k).

Definition hmac_sha256 (key msg : bytes) : bytes :=
  let k := block_key key in
  let ipad := map (Z.lxor 54) k in
  let opad := map (Z.lxor 92) k in
  SHA256.sha256 (opad ++ SHA256.sha256 (ipad ++ msg)).

End HMAC.

Module ChaCha20.

Definition rotl (n x : Z) : Z :=
  Z.lor (w32 (Z.shiftl x n)) (Z.shiftr x (32 - n)).

Definition upd (i : nat) (v : Z) (st : list Z) : list Z :=
  firstn i st ++ v :: skipn (S i) st.

Definition quarter_round (a b c d : nat) (st : list Z) : list Z :=
  let x i s := nth i s 0 in
  let st := upd a (w32 (x a st + x b st)) st in
  let st := upd d (rotl 16 (Z.lxor (x d st) (x a st))) st in
  let st := upd c (w32 (x c st + x d st)) st in
  let st := upd b (rotl 12 (Z.lxor (x b st) (x c st))) st in
  let st := upd a (w32 (x a st + x b st)) st in
  let st := upd d (rotl 8 (Z.lxor (x d st) (x a st))) st in
  let st := upd c (w32 (x c st + x d st)) st in
  upd b (rotl 7 (Z.lxor (x b st) (x c st))) st.

Definition double_round (st : list Z) : list Z :=
  let st := quarter_round 0 4 8 12 st in
  let st := quarter_round 1 5 9 13 st in
  let st := quarter_round 2 6 10 14 st in
  let st := quarter_round 3 7 11 15 st in
  let st := quarter_round 0 5 10 15 st in
  let st := quarter_round 1 6 11 12 st in
  let st := quarter_round 2 7 8 13 st in
  quarter_round 3 4 9 14 st.

(** The words of ["expand 32-byte k"]. *)
Definition sigma : list Z := [1634760805; 857760878; 2036477234; 1797285236].

Definition init (key : bytes) (counter : Z) (nonce : bytes) : list Z :=
  sigma ++ map le_num (chunks 4 key) ++ [w32 counter] ++ map le_num (chunks 4 nonce).

(** One block of 64 bytes of key stream. *)
Definition block (key : bytes) (counter : Z) (nonce : bytes) : bytes :=
  let st0 := init key counter nonce in
  let st := Nat.iter 10 double_round st0 in
  flat_map (fun i => le_bytes 4 (nth i st 0 + nth i st0 0)) (seq 0 16).

Definition key_stream (key : bytes) (counter : Z) (nonce : bytes) (n : nat) : bytes :=
  flat_map (fun j => block key (counter + Z.of_nat j) nonce) (seq 0 ((n + 63) / 64)).

Definition encrypt (key : bytes) (counter : Z) (nonce : bytes) (data : bytes) : bytes :=
  xor_bytes data (key_stream key counter nonce (length data)).

End ChaCha20.

Module Poly1305.

Definition p : Z := 2 ^ 130 - 5.

Definition clamp (r : Z) : Z :=
  Z.land r 0x0ffffffc0ffffffc0ffffffc0fffffff.

Definition mac (msg key : bytes) : bytes :=
  let r := clamp (le_num (firstn 16 key)) in
  let s := le_num (firstn 16 (skipn 16 key)) in
  let acc := fold_left (fun acc c => ((acc + le_num (c ++ [1])) * r) mod p)
                       (chunks 16 msg) 0 in
  le_bytes 16 (acc + s).

End Poly1305.

(** [cryptography.hazmat.primitives.ciphers.aead.ChaCha20Poly1305]: the
  constructor wants a key of 32 bytes, [encrypt] and [decrypt] a nonce of
  12 bytes ([ValueError] otherwise); [decrypt] raises [InvalidTag] on data
  shorter than the tag and on a tag that does not verify. *)
Module ChaCha20Poly1305.

Definition pad16 (x : bytes) : bytes :=
  repeat 0 (Z.to_nat ((- Z.of_nat (length x)) mod 16)).

Definition tag_of (key nonce ad ct : bytes) : bytes :=
  let otk := firstn 32 (ChaCha20.block key 0 nonce) in
  Poly1305.mac (ad ++ pad16 ad ++ ct ++ pad16 ct
                ++ le_bytes 8 (Z.of_nat (length ad))
                ++ le_bytes 8 (Z.of_nat (length ct))) otk.

Definition check_params (key nonce : bytes) : result unit :=
  if negb (Nat.eqb (length key) 32) then Raise ValueError
  else if negb (Nat.eqb (length nonce) 12) then Raise ValueError
  else Ok tt.

Definition bytes_eqb (a b : bytes) : bool :=
  if list_eq_dec Z.eq_dec a b then true else false.

Definition encrypt (key nonce data associated_data : bytes) : result bytes :=
  (_ <- check_params key nonce ;;
   let ct := ChaCha20.encrypt key 1 nonce data in
   Ok (ct ++ tag_of key nonce associated_data ct))%result.

Definition decrypt (key nonce data associated_data : bytes) : result bytes :=
  (_ <- check_params key nonce ;;
   if (length data <? 16)%nat then Raise InvalidTag
   else
     let ct := firstn (length data - 16) data in
     let tag := skipn (length data - 16) data in
     if bytes_eqb tag (tag_of key nonce associated_data ct)
     then Ok (ChaCha20.encrypt key 1 nonce ct)
     else Raise InvalidTag)%result.

End ChaCha20Poly1305.

(** * [lib/lnbase.py] *)

Definition bytes_of_ascii (s : list ascii) : bytes :=
  map (fun c => Z.of_nat (nat_of_ascii c)) s.

Definition H256 (data : bytes) : bytes := SHA256.sha256 data.

(** ** [HandshakeState]

    The object is mutated in place by [update] and by the assignments to
    [hs.ck]; here every step returns the new state. *)

Record HandshakeState : Type := mkHandshakeState {
  responder_pub : bytes;
  h : bytes;
  ck : bytes
}.

Definition prologue : bytes :=
  bytes_of_ascii (list_ascii_of_string "lightning"%string).
Definition protocol_name : bytes :=
  bytes_of_ascii (list_ascii_of_string "Noise_XK_secp256k1_ChaChaPoly_SHA256"%string).
Definition handshake_version : bytes := [0].

(** [update]: [self.h = H256(self.h + data)]; the new hash is also what
    the method returns. *)
Definition update (hs : HandshakeState) (data : bytes) : HandshakeState :=
  mkHandshakeState (responder_pub hs) (H256 (h hs ++ data)) (ck hs).

Definition set_ck (hs : HandshakeState) (ck' : bytes) : HandshakeState :=
  mkHandshakeState (responder_pub hs) (h hs) ck'.

(** [__init__] *)
Definition HandshakeState_init (responder_pub : bytes) : HandshakeState :=
  let h0 := H256 protocol_name in
  let hs := mkHandshakeState responder_pub h0 h0 in
  let hs := update hs prologue in
  update hs responder_pub.

(** ** [aead_encrypt], [aead_decrypt] *)

Definition aead_encrypt (k : bytes) (nonce : Z) (associated_data data : bytes)
  : result bytes :=
  (nonce_bytes <- get_nonce_bytes nonce ;;
   ChaCha20Poly1305.encrypt k nonce_bytes data associated_data)%result.

Definition aead_decrypt (k : bytes) (nonce : Z) (associated_data data : bytes)
  : result bytes :=
  (nonce_bytes <- get_nonce_bytes nonce ;;
   ChaCha20Poly1305.decrypt k nonce_bytes data associated_data)%result.

(** ** [get_bolt8_hkdf]

    [[
    prk = hmac.new(salt, msg=ikm, digestmod=hashlib.sha256).digest()
    assert len(prk) == 32
    info = b""
    T0 = b""
    T1 = hmac.new(prk, T0 + info + b"\x01", digestmod=hashlib.sha256).digest()
    T2 = hmac.new(prk, T1 + info + b"\x02", digestmod=hashlib.sha256).digest()
    assert len(T1 + T2) == 64
    return T1, T2
    ]] *)

Definition get_bolt8_hkdf (salt ikm : bytes) : result (bytes * bytes) :=
  (let prk := HMAC.hmac_sha256 salt ikm in
   _ <- assert_ (Nat.eqb (length prk) 32) ;;
   let info := [] in
   let T0 := [] in
   let T1 := HMAC.hmac_sha256 prk (T0 ++ info ++ [1]) in
   let T2 := HMAC.hmac_sha256 prk (T1 ++ info ++ [2]) in
   _ <- assert_ (Nat.eqb (length (T1 ++ T2)) 64) ;;
   Ok (T1, T2))%result.

(** ** The elliptic-curve helpers

    [public_key_from_private_key], [string_to_number], [ser_to_point] and
    [point_to_ser] come from [electrum.bitcoin], which is not under src/,
    and the point multiplication from the [ecdsa] package: they are taken
    as parameters. *)

Class Curve : Type := {
  point : Type;
  public_key_from_private_key : bytes -> bool -> result hexstr;
  string_to_number : bytes -> Z;
  ser_to_point : bytes -> result point;
  point_mul : point -> Z -> point;
  point_to_ser : point -> result bytes
}.

Section CurveOps.
Context {EC : Curve}.

(** [[
    s = string_to_number(priv)
    pk = ser_to_point(pub)
    pt = point_to_ser(pk * s)
    return H256(pt)
    ]] *)
Definition get_ecdh (priv pub : bytes) : result bytes :=
  (let s := string_to_number priv in
   pk <- ser_to_point pub ;;
   pt <- point_to_ser (point_mul pk s) ;;
   Ok (H256 pt))%result.

(** [[
    pub = public_key_from_private_key(priv[:32], True)
    return bytes.fromhex(pub)
    ]] *)
Definition privkey_to_pubkey (priv : bytes) : result bytes :=
  (pub <- public_key_from_private_key (firstn 32 priv) true ;;
   bfh pub)%result.

(** [[
    pub = privkey_to_pubkey(privkey)
    return (privkey[:32], pub)
    ]] *)
Definition create_ephemeral_key (privkey : bytes) : result (bytes * bytes) :=
  (pub <- privkey_to_pubkey privkey ;;
   Ok (firstn 32 privkey, pub))%result.

(** [act1_initiator_message]: the message and the handshake state it
    leaves. *)
Definition act1_initiator_message (hs : HandshakeState) (my_privkey : bytes)
  : result (bytes * HandshakeState) :=
  ('(epriv, epub) <- create_ephemeral_key my_privkey ;;
   let hs := update hs epub in
   ss <- get_ecdh epriv (responder_pub hs) ;;
   '(ck2, temp_k1) <- get_bolt8_hkdf (ck hs) ss ;;
   let hs := set_ck hs ck2 in
   c <- aead_encrypt temp_k1 0 (h hs) [] ;;
   let hs := update hs c in
   let msg := handshake_version ++ epub ++ c in
   _ <- assert_ (Nat.eqb (length msg) 50) ;;
   Ok (msg, hs))%result.

End CurveOps.

(** ** The connection

    [reader] holds what the coming calls of [reader.read] deliver, one
    chunk a call; once it is empty the stream is at its end and [read]
    returns [b''].  [writer] holds the arguments of [writer.write] so far.
    [aead_log] is a ghost trace of the AEAD calls of the transport
    functions: nothing reads it, it is what the nonce discipline is stated
    on.  The [print] calls are left out. *)

Inductive aead_use : Type :=
| Encrypt (k : bytes) (nonce : Z)
| Decrypt (k : bytes) (nonce : Z).

Record world : Type := mkWorld {
  reader : list bytes;
  writer : list bytes;
  aead_log : list aead_use
}.

(** A run returns, raises, or is cut because the fuel of a loop ran out. *)
Inductive outcome (A : Type) : Type :=
| Returns (a : A) (w : world)
| Raises (e : exn) (w : world)
| OutOfFuel.
Arguments Returns {A} a w.
Arguments Raises {A} e w.
Arguments OutOfFuel {A}.

Definition M (A : Type) : Type := world -> outcome A.

Definition ret {A : Type} (a : A) : M A := fun w => Returns a w.

Definition bind {A B : Type} (m : M A) (f : A -> M B) : M B :=
  fun w =>
    match m w with
    | Returns a w' => f a w'
    | Raises e w' => Raises e w'
    | OutOfFuel => OutOfFuel
    end.

Definition lift {A : Type} (r : result A) : M A :=
  fun w =>
    match r with
    | Ok a => Returns a w
    | Raise e => Raises e w
    end.

Declare Scope io_scope.
Delimit Scope io_scope with io.
Notation "x <- m ;; k" := (bind m (fun x => k))
  (at level 61, m at next level, right associativity) : io_scope.
Notation "' p <- m ;; k" := (bind m (fun p => k))
  (at level 61, p pattern, m at next level, right associativity) : io_scope.
Notation "m ;;; k" := (bind m (fun _ => k))
  (at level 61, right associativity) : io_scope.

(** [reader.read(n)]: at most [n] bytes of what has arrived. *)
Definition reader_read (n : nat) : M bytes :=
  fun w =>
    match reader w with
    | [] => Returns [] w
    | c :: rest =>
        Returns (firstn n c)
                (mkWorld (if (length c <=? n)%nat then rest else skipn n c :: rest)
                         (writer w) (aead_log w))
    end.

Definition writer_write (data : bytes) : M unit :=
  fun w => Returns tt (mkWorld (reader w) (writer w ++ [data]) (aead_log w)).

Definition log_use (u : aead_use) : M unit :=
  fun w => Returns tt (mkWorld (reader w) (writer w) (aead_log w ++ [u])).

Definition with_log (w : world) (u : list aead_use) : world :=
  mkWorld (reader w) (writer w) (aead_log w ++ u).

Definition traced_encrypt (k : bytes) (nonce : Z) (ad data : bytes) : M bytes :=
  (log_use (Encrypt k nonce) ;;; lift (aead_encrypt k nonce ad data))%io.

Definition traced_decrypt (k : bytes) (nonce : Z) (ad data : bytes) : M bytes :=
  (log_use (Decrypt k nonce) ;;; lift (aead_decrypt k nonce ad data))%io.

(** ** [send_message]

    [[
    l = encode(len(msg), 2)
    lc = aead_encrypt(sk, sn, b'', l)
    c = aead_encrypt(sk, sn+1, b'', msg)
    assert len(lc) == 18
    assert len(c) == len(msg) + 16
    writer.write(lc+c)
    ]] *)

Definition send_message (msg sk : bytes) (sn : Z) : M unit :=
  (l <- lift (encode (len msg) 2) ;;
   lc <- traced_encrypt sk sn [] l ;;
   c <- traced_encrypt sk (sn + 1) [] msg ;;
   lift (assert_ (len lc =? 18)) ;;;
   lift (assert_ (len c =? len msg + 16)) ;;;
   writer_write (lc ++ c))%io.

(** ** [read_message]

    [[
    rspns = b''
    while True:
        rspns += await reader.read(2**10)
        lc = rspns[:18]
        l = aead_decrypt(rk, rn, b'', lc)
        length = decode(l)
        if len(rspns) < 18 + length + 16:
            continue
        c = rspns[18:18 + length + 16]
        msg = aead_decrypt(rk, rn+1, b'', c)
        return msg
    ]]

    [fuel] bounds the number of turns of the loop. *)

Fixpoint read_message_loop (fuel : nat) (rk : bytes) (rn : Z) (rspns : bytes)
  : M bytes :=
  match fuel with
  | O => fun _ => OutOfFuel
  | S fuel' =>
      (chunk <- reader_read (2 ^ 10) ;;
       let rspns := rspns ++ chunk in
       let lc := firstn 18 rspns in
       l <- traced_decrypt rk rn [] lc ;;
       let length := decode l in
       if len rspns <? 18 + length + 16
       then read_message_loop fuel' rk rn rspns
       else
         let c := slice 18 (Z.to_nat (18 + length + 16)) rspns in
         traced_decrypt rk (rn + 1) [] c)%io
  end.

Definition read_message (fuel : nat) (rk : bytes) (rn : Z) : M bytes :=
  read_message_loop fuel rk rn [].

Definition process_message (message : bytes) : M unit := ret tt.

(** ** [main_loop]

    The connection is the [world] the run starts in; [host], [port] and
    [loop] only serve to open it.  The body is cut in two at the comment
    [# init counters]: the handshake, which leaves the two transport keys,
    and the exchange of transport messages. *)

Section Driver.
Context {EC : Curve}.

Definition main_loop_handshake (my_privkey pubkey : bytes) : M (bytes * bytes) :=
  (let hs := HandshakeState_init pubkey in
   '(msg, hs) <- lift (act1_initiator_message hs my_privkey) ;;
   (* handshake act 1 *)
   writer_write msg ;;;
   rspns <- reader_read (2 ^ 10) ;;
   lift (assert_ (Nat.eqb (length rspns) 50)) ;;;
   let hver := nth 0 rspns 0 in
   let alice_epub := slice 1 34 rspns in
   let tag := skipn 34 rspns in
   lift (assert_ (ChaCha20Poly1305.bytes_eqb [hver] handshake_version)) ;;;
   (* handshake act 2 *)
   let hs := update hs alice_epub in
   '(myepriv, myepub) <- lift (create_ephemeral_key my_privkey) ;;
   ss <- lift (get_ecdh myepriv alice_epub) ;;
   '(ck', temp_k2) <- lift (get_bolt8_hkdf (ck hs) ss) ;;
   let hs := set_ck hs ck' in
   p <- lift (aead_decrypt temp_k2 0 (h hs) tag) ;;
   let hs := update hs tag in
   (* handshake act 3 *)
   my_pubkey <- lift (privkey_to_pubkey my_privkey) ;;
   c <- lift (aead_encrypt temp_k2 1 (h hs) my_pubkey) ;;
   let hs := update hs c in
   ss <- lift (get_ecdh (firstn 32 my_privkey) alice_epub) ;;
   '(ck', temp_k3) <- lift (get_bolt8_hkdf (ck hs) ss) ;;
   let hs := set_ck hs ck' in
   t <- lift (aead_encrypt temp_k3 0 (h hs) []) ;;
   '(sk, rk) <- lift (get_bolt8_hkdf (ck hs) []) ;;
   let msg := handshake_version ++ c ++ t in
   writer_write msg ;;;
   ret (sk, rk))%io.

Definition main_loop_transport (fuel : nat) (sk rk : bytes) : M unit :=
  ((* init counters *)
   let sn := 0 in
   let rn := 0 in
   (* read init *)
   msg <- read_message fuel rk rn ;;
   process_message msg ;;;
   let rn := rn + 2 in
   (* send init *)
   e16 <- lift (encode 16 2) ;;
   e0 <- lift (encode 0 2) ;;
   e0' <- lift (encode 0 2) ;;
   let init_msg := e16 ++ e0 ++ e0' in
   send_message init_msg sk sn ;;;
   let sn := sn + 2 in
   (* send ping *)
   let msg_type := 18 in
   let num_pong_bytes := 4 in
   let byteslen := 4 in
   e1 <- lift (encode msg_type 2) ;;
   e2 <- lift (encode num_pong_bytes 2) ;;
   e3 <- lift (encode byteslen 2) ;;
   let ping_msg := e1 ++ e2 ++ e3 ++ repeat 0 (Z.to_nat byteslen) in
   send_message ping_msg sk sn ;;;
   let sn := sn + 2 in
   (* read pong *)
   msg <- read_message fuel rk rn ;;
   process_message msg ;;;
   let rn := rn + 2 in
   ret tt)%io.

Definition main_loop (fuel : nat) (my_privkey pubkey : bytes) : M unit :=
  ('(sk, rk) <- main_loop_handshake my_privkey pubkey ;;
   main_loop_transport fuel sk rk)%io.

End Driver.

(** * An instance of the curve helpers: secp256k1

    The models are run on this instance: compressed points of secp256k1,
    private keys of 32 bytes, as [electrum.bitcoin] has them. *)

Module Secp256k1.

Definition p : Z := 2 ^ 256 - 2 ^ 32 - 977.
Definition n : Z :=
  0xFFFFFFFFFFFFFFFFFFFFFFFFFFFFFFFEBAAEDCE6AF48A03BBFD25E8CD0364141.
Definition Gx : Z :=
  0x79BE667EF9DCBBAC55A06295CE870B07029BFCDB2DCE28D959F2815B16F81798.
Definition Gy : Z :=
  0x483ADA7726A3C4655DA4FBFC0E1108A8FD17B448A68554199C47D08FFB10D4B8.

(** Reduction modulo [p = 2^256 - c] of a number below [2^512], by
    folding the high half. *)
Definition c : Z := 2 ^ 32 + 977.
Definition fold (x : Z) : Z := Z.land x (2 ^ 256 - 1) + Z.shiftr x 256 * c.
Definition red (x : Z) : Z :=
  let y := fold (fold (fold x)) in if y <? p then y else y - p.
Definition sub (x y : Z) : Z := if x <? y then x + p - y else x - y.

Fixpoint pow_pos (b : Z) (e : positive) : Z :=
  match e with
  | xH => b mod p
  | xO e' => let t := pow_pos b e' in red (t * t)
  | xI e' => let t := pow_pos b e' in red (red (t * t) * b)
  end.

Definition pow_mod (b e : Z) : Z :=
  match e with
  | Zpos e' => pow_pos b e'
  | _ => 1
  end.

Definition inv (x : Z) : Z := pow_mod x (p - 2).

(** Jacobian coordinates; a point with third coordinate 0 is the point at
    infinity. *)
Definition jac : Type := (Z * Z * Z)%type.

Definition jdouble (P : jac) : jac :=
  let '(X, Y, Z_) := P in
  if Z_ =? 0 then P
  else
    let Y2 := red (Y * Y) in
    let S := red (4 * X * Y2) in
    let M := red (3 * X * X) in
    let X' := sub (red (M * M)) (red (2 * S)) in
    let Y' := sub (red (M * sub S X')) (red (8 * red (Y2 * Y2))) in
    (X', Y', red (2 * Y * Z_)).

Definition jadd (P Q : jac) : jac :=
  let '(X1, Y1, Z1) := P in
  let '(X2, Y2, Z2) := Q in
  if Z1 =? 0 then Q
  else if Z2 =? 0 then P
  else
    let Z1Z1 := red (Z1 * Z1) in
    let Z2Z2 := red (Z2 * Z2) in
    let U1 := red (X1 * Z2Z2) in
    let U2 := red (X2 * Z1Z1) in
    let S1 := red (red (Y1 * Z2) * Z2Z2) in
    let S2 := red (red (Y2 * Z1) * Z1Z1) in
    if U1 =? U2 then (if S1 =? S2 then jdouble P else (1, 1, 0))
    else
      let H := sub U2 U1 in
      let R := sub S2 S1 in
      let HH := red (H * H) in
      let HHH := red (H * HH) in
      let V := red (U1 * HH) in
      let X3 := sub (sub (red (R * R)) HHH) (red (2 * V)) in
      let Y3 := sub (red (R * sub V X3)) (red (S1 * HHH)) in
      (X3, Y3, red (red (H * Z1) * Z2)).

Fixpoint jmul_pos (P : jac) (e : positive) : jac :=
  match e with
  | xH => P
  | xO e' => jdouble (jmul_pos P e')
  | xI e' => jadd (jdouble (jmul_pos P e')) P
  end.

(** An affine point, [None] the point at infinity. *)
Definition affine : Type := option (Z * Z).

Definition to_affine (P : jac) : affine :=
  let '(X, Y, Z_) := P in
  if Z_ =? 0 then None
  else
    let zi := inv Z_ in
    let zi2 := red (zi * zi) in
    Some (red (X * zi2), red (red (Y * zi2) * zi)).

Definition mul (P : affine) (e : Z) : affine :=
  match P, e mod n with
  | Some (x, y), Zpos e' => to_affine (jmul_pos (x, y, 1) e')
  | _, _ => None
  end.

Definition compress (P : affine) : result bytes :=
  match P with
  | Some (x, y) => Ok (2 + y mod 2 :: be_bytes 32 x)
  | None => Raise InvalidKey
  end.

(** The point of a compressed key: [y] is the square root of [x^3 + 7]
    with the parity the first byte asks for. *)
Definition decompress (ser : bytes) : result affine :=
  match ser with
  | b :: xs =>
      if negb (Nat.eqb (length xs) 32) || negb ((b =? 2) || (b =? 3))
      then Raise InvalidKey
      else
        let x := decode xs in
        let y2 := (x * x * x + 7) mod p in
        let y := pow_mod y2 ((p + 1) / 4) in
        if negb (y * y mod p =? y2) || (p <=? x) then Raise InvalidKey
        else Ok (Some (x, if y mod 2 =? b mod 2 then y else p - y))
  | [] => Raise InvalidKey
  end.

Definition pubkey_hex (pk : bytes) (compressed : bool) : result hexstr :=
  if negb (Nat.eqb (length pk) 32) then Raise AssertionError
  else
    match compress (mul (Some (Gx, Gy)) (decode pk)) with
    | Ok ser => Ok (bh2u ser)
    | Raise e => Raise e
    end.

#[export] Instance curve : Curve := {|
  point := affine;
  public_key_from_private_key := pubkey_hex;
  string_to_number := decode;
  ser_to_point := decompress;
  point_mul := mul;
  point_to_ser := compress
|}.

End Secp256k1.

(** * Data the models are run on *)

Definition unhex (s : string) : bytes :=
  match bfh (list_ascii_of_string s) with
  | Ok b => b
  | Raise _ => []
  end.

Definition test_key : bytes := map Z.of_nat (seq 1 32).

Definition empty_world : world := mkWorld [] [] [].

(** The frame [send_message] writes for [msg]. *)
Definition frame_of (msg k : bytes) (n : Z) : bytes :=
  match send_message msg k n empty_world with
  | Returns _ w => concat (writer w)
  | _ => []
  end.

Definition test_msg : bytes := [104; 101; 108; 108; 111].
Definition frame1 := Eval vm_compute in frame_of test_msg test_key 0.
Definition frame2 := Eval vm_compute in frame_of [112; 111; 110; 103] test_key 2.

(** The byte string with bit [i] flipped, bit 0 the lowest bit of the first
    byte. *)
Definition flip_bit (i : nat) (bs : bytes) : bytes :=
  firstn (i / 8) bs ++
  match skipn (i / 8) bs with
  | [] => []
  | b :: rest => Z.lxor b (2 ^ Z.of_nat (i mod 8)) :: rest
  end.

(** The two length bytes [ct] and the changed bytes [ct'] get different
    tags under key [k] and nonce counter [n]: the authentication of the
    length does not collide on them. *)
Definition length_tags_differ (k : bytes) (n : Z) (ct ct' : bytes) : Prop :=
  match get_nonce_bytes n with
  | Ok nonce =>
      ChaCha20Poly1305.tag_of k nonce [] ct <> ChaCha20Poly1305.tag_of k nonce [] ct'
  | Raise _ => True
  end.


(** The keys of the initiator tests of BOLT 8: the responder's static
    public key and the initiator's ephemeral private key. *)
Definition bolt8_rs_pub : bytes :=
  unhex "028d7500dd4c12685d1f568b4c2b5048e8534b873319f3a8daa612b469132ec7f7".
Definition bolt8_e_priv : bytes := repeat 18 32.
Definition bolt8_e_pub : bytes :=
  unhex "036360e856310ce5d294e8be33fc807077dc56ac80d95d9cd4ddbd21325eff73f7".
Definition bolt8_ss1 : bytes :=
  unhex "1e2fb3c8fe8fb9f262f649f64d26ecf0f2c0a805a767cf02dc2d77a6ef1fdcc3".
Definition bolt8_act1 : bytes :=
  unhex "00036360e856310ce5d294e8be33fc807077dc56ac80d95d9cd4ddbd21325eff73f70df6086551151f58b8afe6c195782c6a".

(** A run of [main_loop] on secp256k1: the private key 1, the responder
    key of BOLT 8, a peer whose ephemeral key is the generator. *)
Definition test_privkey : bytes := repeat 0 31 ++ [1].
Definition test_re_pub : bytes := 2 :: be_bytes 32 Secp256k1.Gx.

Definition test_act1 :=
  Eval vm_compute in
    match act1_initiator_message (EC := Secp256k1.curve)
            (HandshakeState_init bolt8_rs_pub) test_privkey with
    | Ok r => r
    | Raise _ => ([], HandshakeState_init [])
    end.

(** The Act 2 message a peer answers with: the tag the initiator will
    check. *)
Definition peer_act2 (hs : HandshakeState) (my_privkey re_pub : bytes) : bytes :=
  let hs := update hs re_pub in
  match get_ecdh (EC := Secp256k1.curve) (firstn 32 my_privkey) re_pub with
  | Ok ss =>
      match get_bolt8_hkdf (ck hs) ss with
      | Ok (_, temp_k2) =>
          match aead_encrypt temp_k2 0 (h hs) [] with
          | Ok tag => handshake_version ++ re_pub ++ tag
          | Raise _ => []
          end
      | Raise _ => []
      end
  | Raise _ => []
  end.

Definition test_act2 :=
  Eval vm_compute in peer_act2 (snd test_act1) test_privkey test_re_pub.

Definition test_keys :=
  Eval vm_compute in
    match main_loop_handshake (EC := Secp256k1.curve) test_privkey bolt8_rs_pub
            (mkWorld [test_act2] [] []) with
    | Returns keys _ => keys
    | _ => ([], [])
    end.

Definition test_world :=
  Eval vm_compute in
    mkWorld [test_act2;
             firstn 20 (frame_of [0; 16; 0; 0; 0; 0] (snd test_keys) 0);
             skipn 20 (frame_of [0; 16; 0; 0; 0; 0] (snd test_keys) 0);
             frame_of [0; 19; 0; 4; 0; 0; 0; 0] (snd test_keys) 2]
            [] [].

Definition test_final :=
  Eval vm_compute in
    match main_loop (EC := Secp256k1.curve) 2 test_privkey bolt8_rs_pub test_world with
    | Returns _ w => w
    | _ => empty_world
    end.

(** The Act 2 of [test_world] as the initiator sees it, and the same reply
    with the last bit of its tag flipped. *)
Definition test_ss2 :=
  Eval vm_compute in
    match get_ecdh (EC := Secp256k1.curve) (firstn 32 test_privkey)
            (slice 1 34 test_act2) with
    | Ok s => s
    | Raise _ => []
    end.

Definition test_hkdf2 :=
  Eval vm_compute in
    match get_bolt8_hkdf (ck (snd test_act1)) test_ss2 with
    | Ok p => p
    | Raise _ => ([], [])
    end.

Definition test_act2_bad :=
  Eval vm_compute in firstn 49 test_act2 ++ [Z.lxor (nth 49 test_act2 0) 1].

(** * Proofs

    ** Hexadecimal strings *)

Lemma hex_val_digit (d : Z) : 0 <= d < 16 -> hex_val (hex_digit d) = Some d.
Proof.
  intros Hd.
  assert (E : d = 0 \/ d = 1 \/ d = 2 \/ d = 3 \/ d = 4 \/ d = 5 \/ d = 6 \/ d = 7 \/
              d = 8 \/ d = 9 \/ d = 10 \/ d = 11 \/ d = 12 \/ d = 13 \/ d = 14 \/ d = 15)
    by lia.
  repeat (destruct E as [E | E]; [subst d; reflexivity |]).
  subst d; reflexivity.
Qed.

Lemma list_pair_ind {A : Type} (P : list A -> Prop) :
  P [] -> (forall a, P [a]) -> (forall a b l, P l -> P (a :: b :: l)) ->
  forall l, P l.
Proof.
  intros H0 H1 H2.
  assert (H : forall l, P l /\ forall a, P (a :: l)).
  { induction l as [| b l [IHl IHl']]; split; auto. }
  intro l; apply H.
Qed.

Lemma bfh_app (a b : hexstr) (x : bytes) :
  bfh a = Ok x ->
  bfh (a ++ b) = match bfh b with Ok y => Ok (x ++ y) | Raise e => Raise e end.
Proof.
  revert x; induction a as [| c | c d a IH] using list_pair_ind; intros x H.
  - inversion H; subst; simpl. destruct (bfh b); reflexivity.
  - discriminate.
  - cbn [bfh app] in *.
    destruct (hex_val c); [| discriminate].
    destruct (hex_val d); [| discriminate].
    destruct (bfh a) as [ya |] eqn:Ea; [| discriminate].
    inversion H; subst. rewrite (IH ya eq_refl).
    destruct (bfh b); reflexivity.
Qed.

Lemma bfh_bh2u (bs : bytes) : wf_bytes bs -> bfh (bh2u bs) = Ok bs.
Proof.
  induction 1 as [| b bs Hb _ IH]; [reflexivity |].
  unfold is_byte in Hb. cbn [bh2u flat_map app bfh].
  fold (bh2u bs). rewrite !hex_val_digit, IH.
  - do 2 f_equal. symmetry; apply Z.div_mod; lia.
  - apply Z.mod_pos_bound; lia.
  - split; [apply Z.div_pos; lia | apply Z.div_lt_upper_bound; lia].
Qed.

Lemma le_bytes_wf (k : nat) (n : Z) : wf_bytes (le_bytes k n).
Proof.
  revert n; induction k as [| k IH]; intros n; cbn [le_bytes]; constructor.
  - apply Z.mod_pos_bound; lia.
  - apply IH.
Qed.

Lemma le_bytes_length (k : nat) (n : Z) : length (le_bytes k n) = k.
Proof. revert n; induction k; intros; simpl; auto. Qed.

Lemma wf_bytes_rev (bs : bytes) : wf_bytes bs -> wf_bytes (rev bs).
Proof. apply Forall_rev. Qed.

Lemma be_hex_zero (j : nat) : be_hex j 0 = repeat "0"%char j.
Proof.
  induction j; [reflexivity |].
  cbn [be_hex]. change (0 / 16) with 0. rewrite IHj.
  change [hex_digit (0 mod 16)] with (repeat "0"%char 1).
  rewrite <- repeat_app. f_equal. lia.
Qed.

Lemma be_hex_pad (d j : nat) (n : Z) :
  0 <= n < 16 ^ Z.of_nat d ->
  repeat "0"%char j ++ be_hex d n = be_hex (j + d) n.
Proof.
  revert n; induction d as [| d IH]; intros n Hn.
  - assert (n = 0) by (simpl in Hn; lia). subst.
    rewrite Nat.add_0_r. cbn [be_hex]. rewrite app_nil_r. symmetry; apply be_hex_zero.
  - rewrite Nat.add_succ_r. cbn [be_hex]. rewrite app_assoc, IH; [reflexivity |].
    rewrite Nat2Z.inj_succ, Z.pow_succ_r in Hn by lia.
    split; [apply Z.div_pos; lia | apply Z.div_lt_upper_bound; lia].
Qed.

Lemma be_hex_length (k : nat) (n : Z) : length (be_hex k n) = k.
Proof.
  revert n; induction k; intros; simpl; auto.
  rewrite length_app, IHk. simpl. lia.
Qed.

Lemma bfh_be_hex (k : nat) (n : Z) :
  bfh (be_hex (2 * k) n) = Ok (be_bytes k n).
Proof.
  revert n; induction k as [| k IH]; intros n; [reflexivity |].
  replace (2 * S k)%nat with (S (S (2 * k))) by lia.
  cbn [be_hex]. rewrite <- app_assoc.
  replace (n / 16 / 16) with (n / 256) by (rewrite Z.div_div by lia; reflexivity).
  rewrite (bfh_app _ _ _ (IH (n / 256))).
  cbn [app bfh]. rewrite !hex_val_digit by (apply Z.mod_pos_bound; lia).
  unfold be_bytes. cbn [le_bytes rev]. do 3 f_equal.
  change 256 with (16 * 16). rewrite Z.rem_mul_r by lia. lia.
Qed.

(** * [encode] and [get_nonce_bytes] *)

Lemma hex_digits_bound (n : Z) (s : nat) :
  0 <= n < 256 ^ Z.of_nat s -> (1 <= s)%nat ->
  n < 16 ^ Z.of_nat (length (hex_ n)) /\ (length (hex_ n) <= 2 * s)%nat.
Proof.
  intros Hn Hs. unfold hex_. rewrite be_hex_length.
  set (q := Z.log2 n / 4).
  assert (Hq : 0 <= q) by (apply Z.div_pos; [apply Z.log2_nonneg | lia]).
  assert (Hl : Z.log2 n < 4 * (q + 1)).
  { unfold q. pose proof (Z.mul_succ_div_gt (Z.log2 n) 4). lia. }
  rewrite Nat2Z.inj_succ, Z2Nat.id by lia.
  split.
  - destruct (Z.eq_dec n 0) as [-> | Hn0]; [apply Z.pow_pos_nonneg; lia |].
    change 16 with (2 ^ 4). rewrite <- Z.pow_mul_r by lia.
    apply Z.lt_le_trans with (2 ^ Z.succ (Z.log2 n)).
    + apply Z.log2_spec; lia.
    + apply Z.pow_le_mono_r; lia.
  - destruct (Z.eq_dec n 0) as [-> | Hn0].
    + unfold q. change (Z.log2 0 / 4) with 0. simpl. lia.
    + assert (Z.log2 n < 8 * Z.of_nat s).
      { apply Z.log2_lt_pow2; [lia |].
        change 256 with (2 ^ 8) in Hn. rewrite <- Z.pow_mul_r in Hn by lia. lia. }
      assert (q < 2 * Z.of_nat s).
      { unfold q. apply Z.div_lt_upper_bound; lia. }
      lia.
Qed.

Lemma int_to_hex_spec (n : Z) (s : nat) :
  0 <= n < 256 ^ Z.of_nat s -> (1 <= s)%nat ->
  int_to_hex n s = Ok (bh2u (le_bytes s n)).
Proof.
  intros Hn Hs. unfold int_to_hex.
  destruct (Z.ltb_spec n 0) as [? | _]; [lia |].
  destruct (hex_digits_bound n s Hn Hs) as [Hd Hl].
  cbv zeta. unfold hex_ at 2. rewrite be_hex_pad.
  2:{ unfold hex_ in Hd. rewrite be_hex_length in Hd. lia. }
  unfold hex_ at 1. rewrite be_hex_length.
  unfold hex_ in Hl. rewrite be_hex_length in Hl.
  replace (2 * s - S (Z.to_nat (Z.log2 n / 4)) + S (Z.to_nat (Z.log2 n / 4)))%nat
    with (2 * s)%nat by lia.
  unfold rev_hex. rewrite bfh_be_hex. unfold be_bytes. rewrite rev_involutive.
  reflexivity.
Qed.

Lemma encode_spec (n : Z) (s : nat) :
  0 <= n < 256 ^ Z.of_nat s -> (1 <= s)%nat ->
  encode n s = Ok (be_bytes s n).
Proof.
  intros Hn Hs. unfold encode. rewrite int_to_hex_spec by assumption.
  cbn [rbind]. unfold rev_hex. rewrite bfh_bh2u by apply le_bytes_wf.
  cbn [rbind]. apply bfh_bh2u. apply wf_bytes_rev, le_bytes_wf.
Qed.

Lemma get_nonce_bytes_le (n : Z) :
  0 <= n < 2 ^ 64 -> get_nonce_bytes n = Ok (repeat 0 4 ++ le_bytes 8 n).
Proof.
  intros Hn. unfold get_nonce_bytes.
  rewrite encode_spec by (simpl; lia).
  cbn [rbind]. unfold be_bytes. rewrite rev_involutive. reflexivity.
Qed.

Lemma get_nonce_bytes_length (n : Z) (nb : bytes) :
  0 <= n < 2 ^ 64 -> get_nonce_bytes n = Ok nb -> length nb = 12%nat.
Proof.
  intros Hn H. rewrite get_nonce_bytes_le in H by assumption.
  injection H as <-. reflexivity.
Qed.

(** C5: for every 64-bit unsigned nonce counter [n], the AEAD nonce is
    exactly 12 bytes: 4 zero bytes followed by the 8-byte little-endian
    encoding of [n]. *)
Theorem get_nonce_bytes_is_4_zeros_then_little_endian (n : Z) :
  0 <= n < 2 ^ 64 ->
  get_nonce_bytes n =
    Ok [0; 0; 0; 0;
        n mod 256; (n / 256) mod 256; (n / 256 ^ 2) mod 256; (n / 256 ^ 3) mod 256;
        (n / 256 ^ 4) mod 256; (n / 256 ^ 5) mod 256; (n / 256 ^ 6) mod 256;
        (n / 256 ^ 7) mod 256]
  /\ (forall nb, get_nonce_bytes n = Ok nb -> length nb = 12%nat).
Proof.
  intros Hn. split.
  - rewrite get_nonce_bytes_le by assumption.
    cbn [repeat app le_bytes].
    rewrite !Z.div_div by lia. reflexivity.
  - intros nb. apply get_nonce_bytes_length. assumption.
Qed.

Lemma get_nonce_bytes_witness :
  0 <= 72623859790382856 < 2 ^ 64 /\
  get_nonce_bytes 72623859790382856 = Ok [0; 0; 0; 0; 8; 7; 6; 5; 4; 3; 2; 1].
Proof.
  split; [lia |].
  exact (proj1 (get_nonce_bytes_is_4_zeros_then_little_endian 72623859790382856
                  ltac:(lia))).
Defined.

(** ** The library primitives *)

Lemma be_bytes_length (k : nat) (n : Z) : length (be_bytes k n) = k.
Proof. unfold be_bytes. rewrite length_rev. apply le_bytes_length. Qed.

Lemma sha256_length (m : bytes) : length (SHA256.sha256 m) = 32%nat.
Proof.
  unfold SHA256.sha256.
  destruct (fold_left SHA256.compress _ _) as [[[[[[[a b] c] d] e] f] g] h].
  unfold SHA256.digest_of. rewrite !length_app, !be_bytes_length. reflexivity.
Qed.

Lemma hmac_sha256_length (key msg : bytes) :
  length (HMAC.hmac_sha256 key msg) = 32%nat.
Proof. apply sha256_length. Qed.

Lemma flat_map_length_const {A B : Type} (f : A -> list B) (k : nat) (l : list A) :
  (forall x, length (f x) = k) -> length (flat_map f l) = (k * length l)%nat.
Proof.
  intros Hf. induction l as [| x l IH]; simpl; [lia |].
  rewrite length_app, Hf, IH. lia.
Qed.

Lemma block_length (key : bytes) (counter : Z) (nonce : bytes) :
  length (ChaCha20.block key counter nonce) = 64%nat.
Proof.
  unfold ChaCha20.block.
  rewrite flat_map_length_const with (k := 4%nat); [reflexivity |].
  intros; apply le_bytes_length.
Qed.

Lemma key_stream_length (key : bytes) (counter : Z) (nonce : bytes) (n : nat) :
  (n <= length (ChaCha20.key_stream key counter nonce n))%nat.
Proof.
  unfold ChaCha20.key_stream.
  rewrite flat_map_length_const with (k := 64%nat) by (intros; apply block_length).
  rewrite length_seq.
  pose proof (Nat.div_mod_eq (n + 63) 64).
  pose proof (Nat.mod_upper_bound (n + 63) 64). lia.
Qed.

Lemma xor_bytes_length (a b : bytes) :
  (length a <= length b)%nat -> length (xor_bytes a b) = length a.
Proof.
  intros H. unfold xor_bytes. rewrite length_map, length_combine. lia.
Qed.

Lemma xor_bytes_involutive (a ks ks' : bytes) :
  (length a <= length ks)%nat -> ks' = ks ->
  xor_bytes (xor_bytes a ks) ks' = a.
Proof.
  intros H ->. revert ks H.
  induction a as [| x a IH]; intros [| k ks] H; simpl in *; try reflexivity; try lia.
  unfold xor_bytes in *. cbn [combine map fst snd]. f_equal.
  - rewrite Z.lxor_assoc, Z.lxor_nilpotent, Z.lxor_0_r. reflexivity.
  - apply IH. lia.
Qed.

Lemma chacha20_encrypt_length (key : bytes) (counter : Z) (nonce data : bytes) :
  length (ChaCha20.encrypt key counter nonce data) = length data.
Proof.
  unfold ChaCha20.encrypt. apply xor_bytes_length, key_stream_length.
Qed.

Lemma chacha20_encrypt_involutive (key : bytes) (counter : Z) (nonce data : bytes) :
  ChaCha20.encrypt key counter nonce (ChaCha20.encrypt key counter nonce data) = data.
Proof.
  unfold ChaCha20.encrypt at 1. rewrite chacha20_encrypt_length.
  unfold ChaCha20.encrypt. apply xor_bytes_involutive; [apply key_stream_length | reflexivity].
Qed.

Lemma poly1305_mac_length (msg key : bytes) : length (Poly1305.mac msg key) = 16%nat.
Proof. unfold Poly1305.mac. apply le_bytes_length. Qed.

Lemma tag_of_length (key nonce ad ct : bytes) :
  length (ChaCha20Poly1305.tag_of key nonce ad ct) = 16%nat.
Proof. apply poly1305_mac_length. Qed.

Lemma bytes_eqb_refl (a : bytes) : ChaCha20Poly1305.bytes_eqb a a = true.
Proof.
  unfold ChaCha20Poly1305.bytes_eqb. destruct (list_eq_dec Z.eq_dec a a); congruence.
Qed.

Lemma bytes_eqb_eq (a b : bytes) : ChaCha20Poly1305.bytes_eqb a b = true <-> a = b.
Proof.
  unfold ChaCha20Poly1305.bytes_eqb. destruct (list_eq_dec Z.eq_dec a b); split; congruence.
Qed.

Lemma check_params_ok (key nonce : bytes) :
  length key = 32%nat -> length nonce = 12%nat ->
  ChaCha20Poly1305.check_params key nonce = Ok tt.
Proof.
  intros Hk Hn. unfold ChaCha20Poly1305.check_params. rewrite Hk, Hn. reflexivity.
Qed.

Lemma chacha20poly1305_encrypt_ok (key nonce data ad : bytes) :
  length key = 32%nat -> length nonce = 12%nat ->
  ChaCha20Poly1305.encrypt key nonce data ad =
    Ok (ChaCha20.encrypt key 1 nonce data
        ++ ChaCha20Poly1305.tag_of key nonce ad (ChaCha20.encrypt key 1 nonce data)).
Proof.
  intros Hk Hn. unfold ChaCha20Poly1305.encrypt.
  rewrite check_params_ok by assumption. reflexivity.
Qed.

Lemma chacha20poly1305_encrypt_length (key nonce data ad c : bytes) :
  ChaCha20Poly1305.encrypt key nonce data ad = Ok c ->
  length c = (length data + 16)%nat.
Proof.
  unfold ChaCha20Poly1305.encrypt.
  destruct (ChaCha20Poly1305.check_params key nonce); [| discriminate].
  cbn [rbind]. intros H; injection H as <-.
  rewrite length_app, chacha20_encrypt_length, tag_of_length. reflexivity.
Qed.

Lemma chacha20poly1305_roundtrip (key nonce data ad c : bytes) :
  ChaCha20Poly1305.encrypt key nonce data ad = Ok c ->
  ChaCha20Poly1305.decrypt key nonce c ad = Ok data.
Proof.
  unfold ChaCha20Poly1305.encrypt, ChaCha20Poly1305.decrypt.
  destruct (ChaCha20Poly1305.check_params key nonce); [| discriminate].
  cbn [rbind]. intros H; injection H as <-.
  set (ct := ChaCha20.encrypt key 1 nonce data).
  set (tag := ChaCha20Poly1305.tag_of key nonce ad ct).
  assert (Hl : length (ct ++ tag) = (length ct + 16)%nat)
    by (rewrite length_app; unfold tag; rewrite tag_of_length; reflexivity).
  rewrite Hl.
  destruct (Nat.ltb_spec (length ct + 16) 16) as [? | _]; [lia |].
  replace (length ct + 16 - 16)%nat with (length ct + 0)%nat by lia.
  rewrite firstn_app_2, skipn_app.
  replace (length ct + 0 - length ct)%nat with 0%nat by lia.
  rewrite Nat.add_0_r, skipn_all. cbn [firstn skipn app]. rewrite app_nil_r.
  fold tag. rewrite bytes_eqb_refl.
  unfold ct. rewrite chacha20_encrypt_involutive. reflexivity.
Qed.

Lemma chacha20poly1305_decrypt_short (key nonce data ad : bytes) :
  (length data < 16)%nat ->
  exists e, ChaCha20Poly1305.decrypt key nonce data ad = Raise e.
Proof.
  intros H. unfold ChaCha20Poly1305.decrypt.
  destruct (ChaCha20Poly1305.check_params key nonce); cbn [rbind]; [| eauto].
  destruct (Nat.ltb_spec (length data) 16); [eauto | lia].
Qed.

(** ** [aead_encrypt], [aead_decrypt] *)

Lemma aead_encrypt_ok (k : bytes) (n : Z) (ad data : bytes) :
  length k = 32%nat -> 0 <= n < 2 ^ 64 ->
  exists c, aead_encrypt k n ad data = Ok c /\ length c = (length data + 16)%nat.
Proof.
  intros Hk Hn. unfold aead_encrypt.
  rewrite get_nonce_bytes_le by assumption. cbn [rbind].
  rewrite chacha20poly1305_encrypt_ok by (assumption || reflexivity).
  eexists; split; [reflexivity |].
  rewrite length_app, chacha20_encrypt_length, tag_of_length. reflexivity.
Qed.

Lemma aead_encrypt_length (k : bytes) (n : Z) (ad data c : bytes) :
  aead_encrypt k n ad data = Ok c -> length c = (length data + 16)%nat.
Proof.
  unfold aead_encrypt. destruct (get_nonce_bytes n); [| discriminate].
  cbn [rbind]. apply chacha20poly1305_encrypt_length.
Qed.

Lemma aead_decrypt_encrypt (k : bytes) (n : Z) (ad data c : bytes) :
  aead_encrypt k n ad data = Ok c -> aead_decrypt k n ad c = Ok data.
Proof.
  unfold aead_encrypt, aead_decrypt. destruct (get_nonce_bytes n); [| discriminate].
  cbn [rbind]. apply chacha20poly1305_roundtrip.
Qed.

(** C4: for every 32-byte key, every 64-bit nonce counter, every
    associated data and every plaintext, [aead_encrypt] succeeds and
    [aead_decrypt] with the same key, nonce and associated data gives the
    plaintext back. *)
Theorem aead_round_trip (k : bytes) (n : Z) (ad plaintext : bytes) :
  length k = 32%nat -> 0 <= n < 2 ^ 64 ->
  exists c,
    aead_encrypt k n ad plaintext = Ok c /\
    aead_decrypt k n ad c = Ok plaintext.
Proof.
  intros Hk Hn.
  destruct (aead_encrypt_ok k n ad plaintext Hk Hn) as [c [Hc _]].
  exists c. split; [exact Hc | exact (aead_decrypt_encrypt _ _ _ _ _ Hc)].
Qed.

Lemma aead_round_trip_witness :
  exists c,
    aead_encrypt test_key 2 [1; 2; 3] [104; 101; 108; 108; 111] = Ok c /\
    aead_decrypt test_key 2 [1; 2; 3] c = Ok [104; 101; 108; 108; 111].
Proof.
  apply (aead_round_trip test_key 2 [1; 2; 3] [104; 101; 108; 108; 111]);
    [reflexivity | lia].
Defined.

(** ** [get_bolt8_hkdf] *)

(** C3: [get_bolt8_hkdf] is a function of [(chainingKey,
    inputKeyMaterial)]: with [PRK = HMAC-SHA256(chainingKey,
    inputKeyMaterial)], [T1 = HMAC-SHA256(PRK, 0x01)] and
    [T2 = HMAC-SHA256(PRK, T1 || 0x02)] it returns the pair [(T1, T2)], each
    half of exactly 32 bytes. *)
Theorem get_bolt8_hkdf_is_two_rounds_of_hmac (chainingKey inputKeyMaterial : bytes) :
  let PRK := HMAC.hmac_sha256 chainingKey inputKeyMaterial in
  let T1 := HMAC.hmac_sha256 PRK [1] in
  let T2 := HMAC.hmac_sha256 PRK (T1 ++ [2]) in
  get_bolt8_hkdf chainingKey inputKeyMaterial = Ok (T1, T2)
  /\ length T1 = 32%nat /\ length T2 = 32%nat.
Proof.
  cbv zeta. unfold get_bolt8_hkdf.
  rewrite length_app, !hmac_sha256_length. cbn [Nat.eqb assert_ rbind app].
  repeat split; reflexivity.
Qed.

Lemma get_bolt8_hkdf_lengths (salt ikm a b : bytes) :
  get_bolt8_hkdf salt ikm = Ok (a, b) -> length a = 32%nat /\ length b = 32%nat.
Proof.
  destruct (get_bolt8_hkdf_is_two_rounds_of_hmac salt ikm) as (E & Ha & Hb).
  rewrite E. intros H; injection H as <- <-. split; assumption.
Qed.

Lemma get_bolt8_hkdf_total (salt ikm : bytes) :
  exists a b, get_bolt8_hkdf salt ikm = Ok (a, b)
              /\ length a = 32%nat /\ length b = 32%nat.
Proof.
  destruct (get_bolt8_hkdf_is_two_rounds_of_hmac salt ikm) as (E & Ha & Hb).
  eauto.
Qed.

(** ** The Act 1 message *)

Section Handshake.
Context {EC : Curve}.

Lemma create_ephemeral_key_eq (privkey : bytes) :
  create_ephemeral_key privkey =
    match privkey_to_pubkey privkey with
    | Ok pub => Ok (firstn 32 privkey, pub)
    | Raise e => Raise e
    end.
Proof. reflexivity. Qed.

(** C2: for a valid ephemeral key (the public key derived from it has 33
    bytes) and a responder key the ECDH accepts, the Act 1 message is
    exactly 50 bytes: the version byte [0x00], the 33-byte ephemeral public
    key, then the 16-byte AEAD output for the empty plaintext under
    [tempKey1] with nonce 0 and the transcript hash as associated data. *)
Theorem act1_message_is_version_key_tag
    (hs : HandshakeState) (my_privkey epub ss : bytes) :
  privkey_to_pubkey my_privkey = Ok epub ->
  length epub = 33%nat ->
  get_ecdh (firstn 32 my_privkey) (responder_pub hs) = Ok ss ->
  exists ck2 tempKey1 tag hs',
    get_bolt8_hkdf (ck hs) ss = Ok (ck2, tempKey1) /\
    aead_encrypt tempKey1 0 (H256 (h hs ++ epub)) [] = Ok tag /\
    length tag = 16%nat /\
    act1_initiator_message hs my_privkey = Ok ([0] ++ epub ++ tag, hs') /\
    length ([0] ++ epub ++ tag) = 50%nat.
Proof.
  intros Hpub Hlen Hss.
  destruct (get_bolt8_hkdf_total (ck hs) ss) as (ck2 & k1 & Hk & _ & Hk1).
  destruct (aead_encrypt_ok k1 0 (H256 (h hs ++ epub)) [] Hk1 ltac:(lia))
    as (tag & Htag & Htl).
  assert (Hmsg : length ([0] ++ epub ++ tag) = 50%nat).
  { cbn [app length]. rewrite length_app, Hlen, Htl. reflexivity. }
  exists ck2, k1, tag. eexists. repeat split; try eassumption.
  unfold act1_initiator_message.
  rewrite create_ephemeral_key_eq, Hpub. cbn [rbind].
  cbn [update responder_pub ck h set_ck]. rewrite Hss. cbn [rbind].
  rewrite Hk. cbn [rbind]. cbn [update responder_pub ck h set_ck].
  rewrite Htag. cbn [rbind]. unfold handshake_version.
  rewrite Hmsg. reflexivity.
Qed.

End Handshake.

Lemma act1_message_witness :
  exists ck2 tempKey1 tag hs',
    get_bolt8_hkdf (ck (HandshakeState_init bolt8_rs_pub)) bolt8_ss1
      = Ok (ck2, tempKey1) /\
    aead_encrypt tempKey1 0
      (H256 (h (HandshakeState_init bolt8_rs_pub) ++ bolt8_e_pub)) [] = Ok tag /\
    length tag = 16%nat /\
    act1_initiator_message (EC := Secp256k1.curve)
      (HandshakeState_init bolt8_rs_pub) bolt8_e_priv
      = Ok ([0] ++ bolt8_e_pub ++ tag, hs') /\
    length ([0] ++ bolt8_e_pub ++ tag) = 50%nat.
Proof.
  apply (act1_message_is_version_key_tag (EC := Secp256k1.curve)
           (HandshakeState_init bolt8_rs_pub) bolt8_e_priv bolt8_e_pub bolt8_ss1);
    vm_compute; reflexivity.
Defined.

(** ** The connection *)

Lemma bind_Returns {A B : Type} (m : M A) (f : A -> M B) (w w' : world) (b : B) :
  bind m f w = Returns b w' ->
  exists a w1, m w = Returns a w1 /\ f a w1 = Returns b w'.
Proof.
  unfold bind. destruct (m w) as [a w1 | e w1 |]; try discriminate. eauto.
Qed.

Lemma lift_Returns {A : Type} (r : result A) (w w' : world) (a : A) :
  lift r w = Returns a w' -> r = Ok a /\ w' = w.
Proof.
  unfold lift. destruct r; intros H; inversion H; auto.
Qed.

Lemma reader_read_chunk (w : world) (c : bytes) (rest : list bytes) :
  reader w = c :: rest -> (length c <= 1024)%nat ->
  reader_read (2 ^ 10) w = Returns c (mkWorld rest (writer w) (aead_log w)).
Proof.
  intros Hr Hc. unfold reader_read. rewrite Hr.
  change (2 ^ 10)%nat with 1024%nat.
  rewrite firstn_all2 by assumption.
  destruct (Nat.leb_spec (length c) 1024); [reflexivity | lia].
Qed.

Lemma reader_read_eof (w : world) (n : nat) :
  reader w = [] -> reader_read n w = Returns [] w.
Proof. intros Hr. unfold reader_read. rewrite Hr. reflexivity. Qed.

(** One turn of the loop of [read_message], after the call of
    [reader.read] has returned [chunk] and left the world [w1]. *)
Lemma read_message_loop_turn (fuel : nat) (rk : bytes) (rn : Z) (buf chunk : bytes)
    (w w1 : world) :
  reader_read (2 ^ 10) w = Returns chunk w1 ->
  read_message_loop (S fuel) rk rn buf w =
    let rspns := buf ++ chunk in
    let w2 := with_log w1 [Decrypt rk rn] in
    match aead_decrypt rk rn [] (firstn 18 rspns) with
    | Raise e => Raises e w2
    | Ok l =>
        if len rspns <? 18 + decode l + 16
        then read_message_loop fuel rk rn rspns w2
        else lift (aead_decrypt rk (rn + 1) []
                     (slice 18 (Z.to_nat (18 + decode l + 16)) rspns))
                  (with_log w2 [Decrypt rk (rn + 1)])
    end.
Proof.
  intros Hread. cbn [read_message_loop]. unfold bind at 1. rewrite Hread.
  cbv zeta. unfold traced_decrypt at 1. unfold bind, log_use, lift, with_log.
  destruct (aead_decrypt rk rn [] (firstn 18 (buf ++ chunk))) as [l | e];
    [| reflexivity].
  destruct (len (buf ++ chunk) <? 18 + decode l + 16); [reflexivity |].
  unfold traced_decrypt, bind, log_use, lift. cbn [reader writer aead_log].
  reflexivity.
Qed.

Lemma with_log_app (w : world) (u v : list aead_use) :
  with_log (with_log w u) v = with_log w (u ++ v).
Proof. unfold with_log. cbn [reader writer aead_log]. rewrite app_assoc. reflexivity. Qed.

Section ReadMessage.
Variables (rk : bytes) (rn : Z).

(** The chunks [cs] are read one a turn; the header is decrypted at each
    turn, the body once the buffer holds the frame. *)
Lemma read_message_loop_frame (cs : list bytes) :
  forall (fuel : nat) (buf : bytes) (w : world) (rest : list bytes) (l : bytes),
  reader w = cs ++ rest ->
  cs <> [] ->
  Forall (fun c => (length c <= 1024)%nat) cs ->
  (length cs <= fuel)%nat ->
  (18 <= length (buf ++ hd [] cs))%nat ->
  aead_decrypt rk rn [] (firstn 18 (buf ++ hd [] cs)) = Ok l ->
  (forall j, (1 <= j < length cs)%nat ->
             len (buf ++ concat (firstn j cs)) < 18 + decode l + 16) ->
  18 + decode l + 16 <= len (buf ++ concat cs) ->
  read_message_loop fuel rk rn buf w =
    lift (aead_decrypt rk (rn + 1) []
            (slice 18 (Z.to_nat (18 + decode l + 16)) (buf ++ concat cs)))
         (with_log (mkWorld rest (writer w) (aead_log w))
                   (repeat (Decrypt rk rn) (length cs) ++ [Decrypt rk (rn + 1)])).
Proof.
  induction cs as [| c cs' IH]; intros fuel buf w rest l Hr Hne Hsz Hfuel H18 Hl Hshort Hfull;
    [congruence |].
  destruct fuel as [| fuel]; [cbn in Hfuel; lia |].
  inversion Hsz as [| ? ? Hc Hsz']; subst.
  cbn [hd] in *. cbn [app] in Hr.
  rewrite (read_message_loop_turn fuel rk rn buf c w _ (reader_read_chunk w c _ Hr Hc)).
  cbv zeta. rewrite Hl.
  destruct cs' as [| c2 cs''].
  - cbn [concat] in Hfull. rewrite app_nil_r in Hfull.
    destruct (Z.ltb_spec (len (buf ++ c)) (18 + decode l + 16)); [lia |].
    cbn [concat]. rewrite app_nil_r. rewrite with_log_app. reflexivity.
  - assert (Hs1 : len (buf ++ c) < 18 + decode l + 16).
    { specialize (Hshort 1%nat). cbn [firstn concat length] in Hshort.
      rewrite app_nil_r in Hshort. apply Hshort. lia. }
    destruct (Z.ltb_spec (len (buf ++ c)) (18 + decode l + 16)); [| lia].
    rewrite (IH fuel (buf ++ c) _ rest l).
    + cbn [concat]. rewrite <- app_assoc. f_equal.
      unfold with_log. cbn [reader writer aead_log length repeat].
      f_equal. rewrite <- app_assoc. reflexivity.
    + reflexivity.
    + discriminate.
    + assumption.
    + cbn [length] in *. lia.
    + cbn [hd]. rewrite length_app. lia.
    + cbn [hd]. rewrite firstn_app.
      replace (18 - length (buf ++ c))%nat with 0%nat by lia.
      cbn [firstn]. rewrite app_nil_r. assumption.
    + intros j Hj. specialize (Hshort (S j)).
      cbn [firstn concat length] in Hshort. rewrite <- app_assoc.
      apply Hshort. cbn [length] in Hj. lia.
    + cbn [concat] in Hfull. rewrite <- app_assoc. assumption.
Qed.

End ReadMessage.

(** ** [read_message] *)

(** C9, as amended: a single call of [read_message] reads the stream one
    chunk (of at most 1024 bytes) a turn, up to the first chunk with which
    its buffer holds a complete frame; it decrypts bytes [18, 18 + N + 16) of
    the buffer and reads no chunk after that one.  The stream is left with
    the chunks that were not read: the bytes of the last chunk read that
    follow the frame are dropped with the buffer. *)
Theorem read_message_consumes_whole_chunks
    (rk : bytes) (rn : Z) (cs : list bytes) (fuel : nat) (w : world)
    (rest : list bytes) (l : bytes) :
  reader w = cs ++ rest ->
  cs <> [] ->
  Forall (fun c => (length c <= 1024)%nat) cs ->
  (length cs <= fuel)%nat ->
  (18 <= length (hd [] cs))%nat ->
  aead_decrypt rk rn [] (firstn 18 (hd [] cs)) = Ok l ->
  (forall j, (1 <= j < length cs)%nat ->
             len (concat (firstn j cs)) < 18 + decode l + 16) ->
  18 + decode l + 16 <= len (concat cs) ->
  exists w',
    read_message fuel rk rn w =
      lift (aead_decrypt rk (rn + 1) []
              (slice 18 (Z.to_nat (18 + decode l + 16)) (concat cs))) w'
    /\ reader w' = rest
    /\ writer w' = writer w.
Proof.
  intros Hr Hne Hsz Hfuel H18 Hl Hshort Hfull.
  eexists. split.
  - unfold read_message.
    apply (read_message_loop_frame rk rn cs fuel [] w rest l); assumption.
  - split; reflexivity.
Qed.

Lemma read_message_consumes_whole_chunks_witness :
  exists w',
    read_message 2 test_key 0
      (mkWorld [firstn 20 frame1; skipn 20 frame1 ++ [7; 7; 7]; [9]] [] []) =
      lift (aead_decrypt test_key (0 + 1) []
              (slice 18 (Z.to_nat (18 + decode [0; 5] + 16))
                 (concat [firstn 20 frame1; skipn 20 frame1 ++ [7; 7; 7]]))) w'
    /\ reader w' = [[9]]
    /\ writer w' = [].
Proof.
  apply (read_message_consumes_whole_chunks test_key 0
           [firstn 20 frame1; skipn 20 frame1 ++ [7; 7; 7]] 2
           (mkWorld [firstn 20 frame1; skipn 20 frame1 ++ [7; 7; 7]; [9]] [] [])
           [[9]] [0; 5]).
  - reflexivity.
  - discriminate.
  - repeat constructor; vm_compute; lia.
  - vm_compute; lia.
  - vm_compute; lia.
  - vm_compute; reflexivity.
  - intros j Hj. assert (j = 1%nat) by (cbn [length] in Hj; lia). subst j.
    vm_compute; reflexivity.
  - vm_compute; discriminate.
Defined.

(** C9, as stated, fails: two frames that arrive in one chunk. *)
Lemma read_message_drops_the_bytes_after_the_frame :
  read_message 1 test_key 0 (mkWorld [frame1 ++ frame2] [] []) =
    Returns test_msg (mkWorld [] [] [Decrypt test_key 0; Decrypt test_key 1])
  /\ frame2 <> []
  /\ read_message 1 test_key 2 (mkWorld [] [] [Decrypt test_key 0; Decrypt test_key 1]) =
       Raises InvalidTag
         (mkWorld [] [] [Decrypt test_key 0; Decrypt test_key 1; Decrypt test_key 2]).
Proof.
  split; [vm_compute; reflexivity |].
  split; [discriminate | vm_compute; reflexivity].
Qed.

Lemma aead_decrypt_short (k : bytes) (n : Z) (ad data : bytes) :
  length k = 32%nat -> 0 <= n < 2 ^ 64 -> (length data < 16)%nat ->
  aead_decrypt k n ad data = Raise InvalidTag.
Proof.
  intros Hk Hn Hd. unfold aead_decrypt.
  rewrite get_nonce_bytes_le by assumption. cbn [rbind].
  unfold ChaCha20Poly1305.decrypt.
  rewrite check_params_ok by (assumption || reflexivity). cbn [rbind].
  destruct (Nat.ltb_spec (length data) 16); [reflexivity | lia].
Qed.

(** A first chunk of fewer than 16 bytes is decrypted as it is. *)
Lemma read_message_short_first_chunk
    (fuel : nat) (rk : bytes) (rn : Z) (w : world) (c : bytes) (rest : list bytes) :
  length rk = 32%nat -> 0 <= rn < 2 ^ 64 ->
  reader w = c :: rest -> (length c < 16)%nat ->
  read_message (S fuel) rk rn w =
    Raises InvalidTag (with_log (mkWorld rest (writer w) (aead_log w)) [Decrypt rk rn]).
Proof.
  intros Hk Hn Hr Hc. unfold read_message.
  rewrite (read_message_loop_turn fuel rk rn [] c w _
             (reader_read_chunk w c rest Hr ltac:(lia))).
  cbv zeta. cbn [app].
  rewrite aead_decrypt_short; [reflexivity | assumption | assumption |].
  rewrite length_firstn. lia.
Qed.

(** C1: a frame fed in one chunk gives its plaintext; the same frame fed
    one byte at a time makes [read_message] raise [InvalidTag] on the first
    byte, as it decrypts the length prefix at every turn, 18 bytes
    buffered or not. *)
Theorem read_message_fails_on_one_byte_chunks :
  read_message 1 test_key 0 (mkWorld [frame1] [] []) =
    Returns test_msg (mkWorld [] [] [Decrypt test_key 0; Decrypt test_key 1])
  /\ forall fuel,
       read_message (S fuel) test_key 0 (mkWorld (map (fun b => [b]) frame1) [] []) =
         Raises InvalidTag
           (mkWorld (map (fun b => [b]) (tl frame1)) [] [Decrypt test_key 0]).
Proof.
  split; [vm_compute; reflexivity |].
  intros fuel.
  apply (read_message_short_first_chunk fuel test_key 0
           (mkWorld (map (fun b => [b]) frame1) [] []) [hd 0 frame1]
           (map (fun b => [b]) (tl frame1)));
    [reflexivity | lia | reflexivity | cbn; lia].
Qed.

(** ** A flipped bit in the encrypted length *)

Lemma firstn_exact {A : Type} (a b : list A) (n : nat) :
  length a = n -> firstn n (a ++ b) = a.
Proof.
  intros <-. rewrite <- (Nat.add_0_r (length a)), firstn_app_2.
  cbn [firstn]. apply app_nil_r.
Qed.

Lemma flip_bit_length (i : nat) (bs : bytes) : length (flip_bit i bs) = length bs.
Proof.
  unfold flip_bit. rewrite <- (firstn_skipn (i / 8) bs) at 3.
  rewrite !length_app. f_equal. destruct (skipn (i / 8) bs); reflexivity.
Qed.

Lemma flip_bit_neq (i : nat) (bs : bytes) :
  (i / 8 < length bs)%nat -> flip_bit i bs <> bs.
Proof.
  intros Hi E. unfold flip_bit in E.
  assert (Hm : 0 < 2 ^ Z.of_nat (i mod 8)) by (apply Z.pow_pos_nonneg; lia).
  set (m := 2 ^ Z.of_nat (i mod 8)) in *.
  rewrite <- (firstn_skipn (i / 8) bs) in E at 3.
  apply app_inv_head in E.
  destruct (skipn (i / 8) bs) as [| b rest] eqn:Es.
  - apply (f_equal (@length Z)) in Es. rewrite length_skipn in Es.
    cbn [length] in Es. lia.
  - injection E as E.
    assert (Hx : Z.lxor (Z.lxor b m) b = Z.lxor b b) by (rewrite E; reflexivity).
    rewrite (Z.lxor_comm b), Z.lxor_assoc, !Z.lxor_nilpotent, Z.lxor_0_r in Hx.
    lia.
Qed.

Lemma flip_bit_app_l (i : nat) (a b : bytes) :
  (i / 8 < length a)%nat -> flip_bit i (a ++ b) = flip_bit i a ++ b.
Proof.
  intros Hi. unfold flip_bit.
  rewrite firstn_app, skipn_app.
  replace (i / 8 - length a)%nat with 0%nat by lia.
  cbn [firstn skipn]. rewrite app_nil_r.
  destruct (skipn (i / 8) a) as [| x rest] eqn:Es.
  - apply (f_equal (@length Z)) in Es. rewrite length_skipn in Es. cbn [length] in Es. lia.
  - cbn [app]. rewrite <- app_assoc. reflexivity.
Qed.

Lemma flip_bit_app_r (i : nat) (a b : bytes) :
  (8 * length a <= i)%nat ->
  flip_bit i (a ++ b) = a ++ flip_bit (i - 8 * length a) b.
Proof.
  intros Hi. unfold flip_bit.
  assert (Hq : ((i - 8 * length a) / 8 = i / 8 - length a)%nat).
  { replace i with ((i - 8 * length a) + length a * 8)%nat at 2 by lia.
    rewrite Nat.div_add by lia. lia. }
  assert (Hm : ((i - 8 * length a) mod 8 = i mod 8)%nat).
  { replace i with ((i - 8 * length a) + length a * 8)%nat at 2 by lia.
    rewrite Nat.Div0.mod_add. reflexivity. }
  assert (Hl : (length a <= i / 8)%nat).
  { apply Nat.div_le_lower_bound; lia. }
  rewrite Hq, Hm, firstn_app, skipn_app.
  rewrite firstn_all2, skipn_all2 by lia. cbn [app].
  rewrite <- app_assoc. reflexivity.
Qed.

Lemma chacha20poly1305_decrypt_bad_tag (key nonce ct tag ad : bytes) :
  length tag = 16%nat ->
  tag <> ChaCha20Poly1305.tag_of key nonce ad ct ->
  ChaCha20Poly1305.check_params key nonce = Ok tt ->
  ChaCha20Poly1305.decrypt key nonce (ct ++ tag) ad = Raise InvalidTag.
Proof.
  intros Hl Hne Hp. unfold ChaCha20Poly1305.decrypt. rewrite Hp. cbn [rbind].
  rewrite length_app, Hl.
  destruct (Nat.ltb_spec (length ct + 16) 16); [reflexivity |].
  replace (length ct + 16 - 16)%nat with (length ct + 0)%nat by lia.
  rewrite firstn_app_2, skipn_app.
  replace (length ct + 0 - length ct)%nat with 0%nat by lia.
  rewrite Nat.add_0_r, skipn_all. cbn [firstn skipn app]. rewrite app_nil_r.
  destruct (ChaCha20Poly1305.bytes_eqb tag _) eqn:E; [| reflexivity].
  apply bytes_eqb_eq in E. contradiction.
Qed.

(** A flipped bit of the encrypted length is rejected: always when the bit
    is one of the tag, and when it is one of the two length bytes unless
    the changed bytes have the tag of the original ones. *)
Lemma aead_decrypt_flipped_length
    (k : bytes) (n : Z) (l lc : bytes) (i : nat) :
  length k = 32%nat -> 0 <= n < 2 ^ 64 -> length l = 2%nat ->
  aead_encrypt k n [] l = Ok lc ->
  (i < 144)%nat ->
  ((i < 16)%nat -> length_tags_differ k n (firstn 2 lc) (flip_bit i (firstn 2 lc))) ->
  aead_decrypt k n [] (flip_bit i lc) = Raise InvalidTag.
Proof.
  intros Hk Hn Hl Henc Hi Htags.
  unfold aead_encrypt in Henc. unfold aead_decrypt.
  rewrite get_nonce_bytes_le in * by assumption. cbn [rbind] in *.
  set (nonce := repeat 0 4 ++ le_bytes 8 n) in *.
  assert (Hp : ChaCha20Poly1305.check_params k nonce = Ok tt)
    by (apply check_params_ok; [assumption | reflexivity]).
  rewrite chacha20poly1305_encrypt_ok in Henc by (assumption || reflexivity).
  injection Henc as <-.
  set (ct := ChaCha20.encrypt k 1 nonce l) in *.
  set (tag := ChaCha20Poly1305.tag_of k nonce [] ct) in *.
  assert (Hct : length ct = 2%nat)
    by (unfold ct; rewrite chacha20_encrypt_length; assumption).
  assert (Htag : length tag = 16%nat) by apply tag_of_length.
  destruct (Nat.lt_ge_cases i 16) as [Hlo | Hhi].
  - rewrite flip_bit_app_l.
    2:{ rewrite Hct. apply Nat.Div0.div_lt_upper_bound. lia. }
    apply chacha20poly1305_decrypt_bad_tag; [assumption | | assumption].
    specialize (Htags Hlo). unfold length_tags_differ in Htags.
    rewrite get_nonce_bytes_le in Htags by assumption. fold nonce in Htags.
    replace (firstn 2 (ct ++ tag)) with ct in Htags
      by (symmetry; apply firstn_exact; assumption).
    fold tag in Htags. exact Htags.
  - rewrite flip_bit_app_r by lia.
    apply chacha20poly1305_decrypt_bad_tag.
    + rewrite flip_bit_length. assumption.
    + fold tag. apply flip_bit_neq. rewrite Htag, Hct.
      apply Nat.Div0.div_lt_upper_bound. lia.
    + assumption.
Qed.

(** C7, as amended: when one bit of the 18-byte encrypted length of a frame
    is flipped, a bit of the tag, or a bit of the two length bytes provided
    the changed bytes do not have the tag of the original ones,
    [read_message] raises [InvalidTag] at the first decryption: no body byte
    is decrypted and no data is returned.  The chunk read before that
    decryption, the body bytes in it included, is consumed. *)
Theorem read_message_rejects_flipped_length
    (rk : bytes) (rn : Z) (l lc body : bytes) (i fuel : nat)
    (w : world) (rest : list bytes) :
  length rk = 32%nat -> 0 <= rn < 2 ^ 64 -> length l = 2%nat ->
  aead_encrypt rk rn [] l = Ok lc ->
  (i < 144)%nat ->
  ((i < 16)%nat -> length_tags_differ rk rn (firstn 2 lc) (flip_bit i (firstn 2 lc))) ->
  reader w = (flip_bit i lc ++ body) :: rest ->
  (length (flip_bit i lc ++ body) <= 1024)%nat ->
  read_message (S fuel) rk rn w =
    Raises InvalidTag (mkWorld rest (writer w) (aead_log w ++ [Decrypt rk rn])).
Proof.
  intros Hk Hn Hl Henc Hi Htags Hr Hsz.
  unfold read_message.
  rewrite (read_message_loop_turn fuel rk rn [] _ w _ (reader_read_chunk w _ rest Hr Hsz)).
  cbv zeta. cbn [app].
  assert (H18 : length (flip_bit i lc) = 18%nat).
  { rewrite flip_bit_length. rewrite (aead_encrypt_length _ _ _ _ _ Henc), Hl. reflexivity. }
  rewrite (firstn_exact _ _ _ H18).
  rewrite (aead_decrypt_flipped_length rk rn l lc i) by assumption.
  reflexivity.
Qed.

Lemma read_message_rejects_flipped_length_witness :
  read_message 1 test_key 0
    (mkWorld [flip_bit 3 (firstn 18 frame1) ++ skipn 18 frame1; [9]] [] []) =
    Raises InvalidTag (mkWorld [[9]] [] ([] ++ [Decrypt test_key 0])).
Proof.
  apply (read_message_rejects_flipped_length test_key 0 [0; 5] (firstn 18 frame1)
           (skipn 18 frame1) 3 0
           (mkWorld [flip_bit 3 (firstn 18 frame1) ++ skipn 18 frame1; [9]] [] [])
           [[9]]).
  - reflexivity.
  - lia.
  - reflexivity.
  - vm_compute; reflexivity.
  - lia.
  - intros _. vm_compute. discriminate.
  - reflexivity.
  - vm_compute; lia.
Defined.

(** C7, as stated, fails: the body bytes that came with the flipped length
    have been taken from the stream when [read_message] raises. *)
Lemma read_message_has_consumed_the_body_when_it_raises :
  read_message 1 test_key 0 (mkWorld [flip_bit 130 frame1] [] []) =
    Raises InvalidTag (mkWorld [] [] [Decrypt test_key 0])
  /\ skipn 18 (flip_bit 130 frame1) = skipn 18 frame1
  /\ skipn 18 frame1 <> [].
Proof.
  split; [vm_compute; reflexivity |].
  split; [vm_compute; reflexivity | vm_compute; discriminate].
Qed.

(** ** The trace of a run *)

Lemma reader_read_total (n : nat) (w : world) :
  exists chunk w1,
    reader_read n w = Returns chunk w1
    /\ writer w1 = writer w /\ aead_log w1 = aead_log w.
Proof.
  unfold reader_read. destruct (reader w) as [| c rest]; eauto.
Qed.

Lemma read_message_loop_trace (rk : bytes) (rn : Z) (fuel : nat) :
  forall (buf : bytes) (w w' : world) (msg : bytes),
  read_message_loop fuel rk rn buf w = Returns msg w' ->
  exists k, (1 <= k)%nat
    /\ aead_log w' = aead_log w ++ repeat (Decrypt rk rn) k ++ [Decrypt rk (rn + 1)]
    /\ writer w' = writer w.
Proof.
  induction fuel as [| fuel IH]; intros buf w w' msg H; [discriminate |].
  destruct (reader_read_total (2 ^ 10) w) as (chunk & w1 & Hread & Hw & Hlog).
  rewrite (read_message_loop_turn fuel rk rn buf chunk w w1 Hread) in H.
  cbv zeta in H.
  destruct (aead_decrypt rk rn [] (firstn 18 (buf ++ chunk))) as [l | e];
    [| discriminate].
  destruct (len (buf ++ chunk) <? 18 + decode l + 16).
  - apply IH in H. destruct H as (k & Hk & Hl & Hwr).
    exists (S k). split; [lia |]. split.
    + rewrite Hl. unfold with_log. cbn [aead_log repeat]. rewrite Hlog.
      rewrite <- !app_assoc. reflexivity.
    + rewrite Hwr. unfold with_log. cbn [writer]. assumption.
  - apply lift_Returns in H. destruct H as [_ ->].
    exists 1%nat. split; [lia |]. unfold with_log. cbn [aead_log writer repeat].
    rewrite Hlog, <- !app_assoc. split; [reflexivity | assumption].
Qed.

Lemma traced_encrypt_Returns (k : bytes) (n : Z) (ad data c : bytes) (w w' : world) :
  traced_encrypt k n ad data w = Returns c w' ->
  aead_encrypt k n ad data = Ok c /\ w' = with_log w [Encrypt k n].
Proof.
  unfold traced_encrypt, bind, log_use. intros H.
  apply lift_Returns in H. destruct H as [H ->]. split; [assumption | reflexivity].
Qed.

Lemma send_message_trace (msg sk : bytes) (sn : Z) (w w' : world) :
  send_message msg sk sn w = Returns tt w' ->
  aead_log w' = aead_log w ++ [Encrypt sk sn; Encrypt sk (sn + 1)]
  /\ reader w' = reader w
  /\ exists l lc c,
       encode (len msg) 2 = Ok l
       /\ aead_encrypt sk sn [] l = Ok lc
       /\ aead_encrypt sk (sn + 1) [] msg = Ok c
       /\ writer w' = writer w ++ [lc ++ c].
Proof.
  unfold send_message. intros H.
  apply bind_Returns in H. destruct H as (l & w1 & Hl & H).
  apply lift_Returns in Hl. destruct Hl as [Hl ->].
  apply bind_Returns in H. destruct H as (lc & w2 & Hlc & H).
  apply traced_encrypt_Returns in Hlc. destruct Hlc as [Hlc ->].
  apply bind_Returns in H. destruct H as (c & w3 & Hc & H).
  apply traced_encrypt_Returns in Hc. destruct Hc as [Hc ->].
  apply bind_Returns in H. destruct H as (? & w4 & Ha & H).
  apply lift_Returns in Ha. destruct Ha as [_ ->].
  apply bind_Returns in H. destruct H as (? & w5 & Hb & H).
  apply lift_Returns in Hb. destruct Hb as [_ ->].
  unfold writer_write in H. injection H as <-.
  unfold with_log. cbn [reader writer aead_log]. rewrite <- app_assoc.
  split; [reflexivity |]. split; [reflexivity |].
  exists l, lc, c. auto.
Qed.






(** ** [main_loop] *)

Section MainLoop.
Context {EC : Curve}.




(** C6, as amended: after writing Act 1 the initiator makes one read of
    at most 1024 bytes; when the chunk that read delivers is not exactly 50
    bytes long or its first byte is not 0x00, [main_loop] fails at that
    point with the error of a failed [assert], whatever the curve
    operations and the decryption of Act 2 would have given: nothing but
    the Act 1 message has been written, and the chunk is gone from the
    stream. *)
Theorem act2_reply_is_checked_before_any_act2_work
    (my_privkey pubkey : bytes) (w w1 : world) (msg : bytes) (hs1 : HandshakeState)
    (rspns : bytes) :
  act1_initiator_message (HandshakeState_init pubkey) my_privkey = Ok (msg, hs1) ->
  reader_read (2 ^ 10) (mkWorld (reader w) (writer w ++ [msg]) (aead_log w))
    = Returns rspns w1 ->
  length rspns <> 50%nat \/ nth 0 rspns 0 <> 0 ->
  main_loop_handshake my_privkey pubkey w = Raises AssertionError w1
  /\ (forall fuel, main_loop fuel my_privkey pubkey w = Raises AssertionError w1)
  /\ writer w1 = writer w ++ [msg]
  /\ aead_log w1 = aead_log w.
Proof.
  intros Hact1 Hread Hbad.
  assert (Hh : main_loop_handshake my_privkey pubkey w = Raises AssertionError w1).
  { unfold main_loop_handshake. cbv zeta.
    unfold bind at 1. unfold lift at 1. rewrite Hact1. cbv beta iota.
    unfold bind at 1. unfold writer_write at 1. cbv beta iota.
    unfold bind at 1. rewrite Hread.
    unfold bind at 1. unfold lift at 1. unfold assert_ at 1.
    destruct (Nat.eqb_spec (length rspns) 50) as [Hl | Hl]; [| reflexivity].
    unfold bind at 1. unfold lift at 1. unfold assert_ at 1.
    destruct (ChaCha20Poly1305.bytes_eqb [nth 0 rspns 0] handshake_version) eqn:Ev;
      [| reflexivity].
    apply bytes_eqb_eq in Ev. injection Ev as Ev.
    destruct Hbad; contradiction. }
  split; [exact Hh |].
  split; [intros fuel; unfold main_loop, bind; rewrite Hh; reflexivity |].
  destruct (reader_read_total (2 ^ 10)
              (mkWorld (reader w) (writer w ++ [msg]) (aead_log w)))
    as (chunk & wr & Hread' & Hwr & Hlg).
  rewrite Hread in Hread'. injection Hread' as <- <-.
  split; assumption.
Qed.

(** When the two checks pass, the ECDH of Act 2 is what comes next. *)
Lemma act2_work_follows_the_checks
    (my_privkey pubkey : bytes) (w w1 : world) (msg : bytes) (hs1 : HandshakeState)
    (rspns : bytes) (e : exn) :
  act1_initiator_message (HandshakeState_init pubkey) my_privkey = Ok (msg, hs1) ->
  reader_read (2 ^ 10) (mkWorld (reader w) (writer w ++ [msg]) (aead_log w))
    = Returns rspns w1 ->
  length rspns = 50%nat -> nth 0 rspns 0 = 0 ->
  get_ecdh (firstn 32 my_privkey) (slice 1 34 rspns) = Raise e ->
  main_loop_handshake my_privkey pubkey w = Raises e w1.
Proof.
  intros Hact1 Hread Hl Hv Hecdh.
  assert (Heph : exists epub, create_ephemeral_key my_privkey
                              = Ok (firstn 32 my_privkey, epub)).
  { unfold act1_initiator_message in Hact1.
    rewrite create_ephemeral_key_eq in *.
    destruct (privkey_to_pubkey my_privkey); [eauto | discriminate]. }
  destruct Heph as [epub Heph].
  unfold main_loop_handshake. cbv zeta.
  unfold bind at 1. unfold lift at 1. rewrite Hact1. cbv beta iota.
  unfold bind at 1. unfold writer_write at 1. cbv beta iota.
  unfold bind at 1. rewrite Hread.
  unfold bind at 1. unfold lift at 1. rewrite Hl. cbn [Nat.eqb assert_].
  unfold bind at 1. unfold lift at 1. rewrite Hv.
  rewrite bytes_eqb_refl. cbn [assert_].
  unfold bind at 1. unfold lift at 1. rewrite Heph. cbv beta iota.
  unfold bind at 1. unfold lift at 1. rewrite Hecdh. reflexivity.
Qed.

Lemma rbind_Ok {A B : Type} (r : result A) (f : A -> result B) (b : B) :
  rbind r f = Ok b -> exists a, r = Ok a /\ f a = Ok b.
Proof. destruct r as [a |]; [eauto | discriminate]. Qed.

(** The message of a successful Act 1 starts with the version byte and the
    public key of the caller's own private key. *)
Lemma act1_initiator_message_Ok
    (hs hs' : HandshakeState) (my_privkey msg : bytes) :
  act1_initiator_message hs my_privkey = Ok (msg, hs') ->
  exists epub tag,
    privkey_to_pubkey my_privkey = Ok epub
    /\ msg = handshake_version ++ epub ++ tag
    /\ length msg = 50%nat.
Proof.
  unfold act1_initiator_message. intros H.
  apply rbind_Ok in H. destruct H as ([epriv epub] & Heph & H).
  rewrite create_ephemeral_key_eq in Heph.
  destruct (privkey_to_pubkey my_privkey) as [pub |]; [| discriminate].
  assert (He : epub = pub) by congruence. subst pub. clear Heph.
  cbv zeta in H.
  apply rbind_Ok in H. destruct H as (ss & _ & H).
  apply rbind_Ok in H. destruct H as ([ck2 k1] & _ & H).
  apply rbind_Ok in H. destruct H as (tag & _ & H).
  apply rbind_Ok in H. destruct H as (u & Hlen & H).
  assert (Hm : msg = handshake_version ++ epub ++ tag) by congruence.
  exists epub, tag. split; [reflexivity |]. split; [exact Hm |].
  unfold assert_ in Hlen. subst msg.
  destruct (Nat.eqb_spec (length (handshake_version ++ epub ++ tag)) 50);
    [assumption | discriminate].
Qed.


End MainLoop.

Lemma act2_reply_is_checked_witness :
  main_loop_handshake (EC := Secp256k1.curve) test_privkey bolt8_rs_pub
    (mkWorld [repeat 0 49] [] [])
    = Raises AssertionError (mkWorld [] [fst test_act1] [])
  /\ (forall fuel,
        main_loop (EC := Secp256k1.curve) fuel test_privkey bolt8_rs_pub
          (mkWorld [repeat 0 49] [] [])
        = Raises AssertionError (mkWorld [] [fst test_act1] []))
  /\ writer (mkWorld [] [fst test_act1] []) = [] ++ [fst test_act1]
  /\ aead_log (mkWorld [] [fst test_act1] []) = [].
Proof.
  apply (act2_reply_is_checked_before_any_act2_work (EC := Secp256k1.curve)
           test_privkey bolt8_rs_pub (mkWorld [repeat 0 49] [] [])
           (mkWorld [] [fst test_act1] []) (fst test_act1) (snd test_act1)
           (repeat 0 49)).
  - vm_compute; reflexivity.
  - vm_compute; reflexivity.
  - left. vm_compute. discriminate.
Defined.



(** * Further properties of the byte helpers *)

(** ** [decode] *)

Lemma decode_loop_shift (bs : bytes) :
  forall r, decode_loop r bs = r * 256 ^ Z.of_nat (length bs) + decode bs.
Proof.
  unfold decode. induction bs as [| b rest IH]; intros r.
  - cbn [decode_loop length]. change (256 ^ Z.of_nat 0) with 1. lia.
  - cbn [decode_loop length]. rewrite (IH (r * 256 + b)), (IH (0 * 256 + b)).
    rewrite Nat2Z.inj_succ, Z.pow_succ_r by lia. ring.
Qed.

Lemma decode_loop_app (a b : bytes) :
  forall r, decode_loop r (a ++ b) = decode_loop (decode_loop r a) b.
Proof.
  induction a as [| x a IH]; intros r; [reflexivity |].
  cbn [app decode_loop]. apply IH.
Qed.

Lemma decode_cons (b : Z) (rest : bytes) :
  decode (b :: rest) = b * 256 ^ Z.of_nat (length rest) + decode rest.
Proof.
  unfold decode at 1. cbn [decode_loop]. rewrite decode_loop_shift. lia.
Qed.

Lemma decode_range (bs : bytes) :
  wf_bytes bs -> 0 <= decode bs < 256 ^ Z.of_nat (length bs).
Proof.
  induction 1 as [| b rest Hb _ IH].
  - cbn. lia.
  - rewrite decode_cons. cbn [length].
    rewrite Nat2Z.inj_succ, Z.pow_succ_r by lia.
    unfold is_byte in Hb.
    assert (0 < 256 ^ Z.of_nat (length rest)) by (apply Z.pow_pos_nonneg; lia).
    nia.
Qed.

Lemma decode_rev (l : bytes) : decode (rev l) = le_num l.
Proof.
  induction l as [| b l IH]; [reflexivity |].
  cbn [rev le_num]. unfold decode in *. rewrite decode_loop_app, IH.
  cbn [decode_loop]. lia.
Qed.

Lemma le_num_le_bytes (k : nat) :
  forall n, le_num (le_bytes k n) = n mod 256 ^ Z.of_nat k.
Proof.
  induction k as [| k IH]; intros n.
  - cbn [le_bytes le_num]. change (256 ^ Z.of_nat 0) with 1. rewrite Z.mod_1_r.
    reflexivity.
  - cbn [le_bytes le_num]. rewrite IH.
    rewrite Nat2Z.inj_succ, Z.pow_succ_r by lia.
    assert (0 < 256 ^ Z.of_nat k) by (apply Z.pow_pos_nonneg; lia).
    rewrite Z.rem_mul_r by lia. reflexivity.
Qed.

Lemma le_bytes_le_num (l : bytes) :
  wf_bytes l -> le_bytes (length l) (le_num l) = l.
Proof.
  induction 1 as [| b l Hb _ IH]; [reflexivity |].
  cbn [length le_bytes le_num]. unfold is_byte in Hb.
  replace ((b + 256 * le_num l) mod 256) with b.
  2:{ rewrite (Z.mul_comm 256), Z.mod_add by lia.
      symmetry. apply Z.mod_small. lia. }
  replace ((b + 256 * le_num l) / 256) with (le_num l).
  2:{ rewrite (Z.mul_comm 256), Z.div_add by lia.
      rewrite (Z.div_small b) by lia. lia. }
  rewrite IH. reflexivity.
Qed.

Lemma decode_be_bytes (k : nat) (n : Z) :
  decode (be_bytes k n) = n mod 256 ^ Z.of_nat k.
Proof. unfold be_bytes. rewrite decode_rev. apply le_num_le_bytes. Qed.

(** [decode] reads a byte string as a big-endian number: the value of a
    concatenation is the value of the first part shifted by the length of
    the second, plus the value of the second. *)
Theorem decode_of_a_concatenation (a b : bytes) :
  decode (a ++ b) = decode a * 256 ^ Z.of_nat (length b) + decode b.
Proof.
  unfold decode at 1. rewrite decode_loop_app.
  fold (decode a). apply decode_loop_shift.
Qed.

(** The value [decode] gives for [n] bytes lies in [0, 256 ^ n). *)
Theorem decode_is_below_256_to_the_length (bs : bytes) :
  wf_bytes bs -> 0 <= decode bs < 256 ^ Z.of_nat (length bs).
Proof. apply decode_range. Qed.

Lemma decode_is_below_256_to_the_length_witness :
  0 <= decode [1; 0; 255] < 256 ^ Z.of_nat (length [1; 0; 255]).
Proof.
  apply (decode_is_below_256_to_the_length [1; 0; 255]).
  repeat constructor; unfold is_byte; lia.
Defined.

(** ** [encode] *)

(** [decode] inverts [encode]: a value that fits [s] bytes ([s >= 1]) is
    encoded on exactly [s] bytes, and decoding them gives the value back. *)
Theorem decode_inverts_encode (n : Z) (s : nat) :
  0 <= n < 256 ^ Z.of_nat s -> (1 <= s)%nat ->
  exists bs, encode n s = Ok bs /\ length bs = s /\ decode bs = n.
Proof.
  intros Hn Hs. exists (be_bytes s n).
  split; [apply encode_spec; assumption |].
  split; [apply be_bytes_length |].
  rewrite decode_be_bytes. apply Z.mod_small. assumption.
Qed.

Lemma decode_inverts_encode_witness :
  exists bs, encode 4660 2 = Ok bs /\ length bs = 2%nat /\ decode bs = 4660.
Proof.
  apply (decode_inverts_encode 4660 2); [vm_compute; split; [discriminate | reflexivity] | lia].
Defined.

(** [encode] inverts [decode]: encoding the value of a non-empty byte
    string on as many bytes gives the byte string back. *)
Theorem encode_inverts_decode (bs : bytes) :
  wf_bytes bs -> bs <> [] ->
  encode (decode bs) (length bs) = Ok bs.
Proof.
  intros Hwf Hne.
  rewrite encode_spec.
  - unfold be_bytes. f_equal.
    pose proof (le_bytes_le_num (rev bs) (wf_bytes_rev _ Hwf)) as H.
    rewrite length_rev in H. rewrite <- decode_rev, rev_involutive in H.
    rewrite H. apply rev_involutive.
  - apply decode_range. assumption.
  - destruct bs; [contradiction | cbn [length]; lia].
Qed.

Lemma encode_inverts_decode_witness :
  encode (decode [0; 5]) (length [0; 5]) = Ok [0; 5].
Proof.
  apply (encode_inverts_decode [0; 5]).
  - repeat constructor; unfold is_byte; lia.
  - discriminate.
Defined.

(** A string with an odd number of characters is no hexadecimal string. *)
Lemma bfh_odd (s : hexstr) :
  Nat.odd (length s) = true -> bfh s = Raise ValueError.
Proof.
  induction s as [| a | a b l IH] using list_pair_ind; intros Hodd.
  - discriminate.
  - reflexivity.
  - cbn [bfh]. destruct (hex_val a); [| reflexivity].
    destruct (hex_val b); [| reflexivity].
    rewrite IH; [reflexivity |].
    cbn [length] in Hodd. rewrite Nat.odd_succ_succ in Hodd. exact Hodd.
Qed.

(** The number of digits [hex] gives a value that does not fit [s] bytes. *)
Lemma hex_digits_overflow (n : Z) (s : nat) :
  256 ^ Z.of_nat s <= n ->
  n < 16 ^ Z.of_nat (length (hex_ n)) /\ (2 * s < length (hex_ n))%nat.
Proof.
  intros Hn. unfold hex_. rewrite be_hex_length.
  assert (H0 : 0 < n).
  { assert (0 < 256 ^ Z.of_nat s) by (apply Z.pow_pos_nonneg; lia). lia. }
  set (q := Z.log2 n / 4).
  assert (Hq : 0 <= q) by (apply Z.div_pos; [apply Z.log2_nonneg | lia]).
  assert (Hl : Z.log2 n < 4 * (q + 1)).
  { unfold q. pose proof (Z.mul_succ_div_gt (Z.log2 n) 4). lia. }
  rewrite Nat2Z.inj_succ, Z2Nat.id by lia.
  split.
  - change 16 with (2 ^ 4). rewrite <- Z.pow_mul_r by lia.
    apply Z.lt_le_trans with (2 ^ Z.succ (Z.log2 n)).
    + apply Z.log2_spec; lia.
    + apply Z.pow_le_mono_r; lia.
  - assert (8 * Z.of_nat s <= Z.log2 n).
    { apply Z.log2_le_pow2; [lia |].
      change 256 with (2 ^ 8) in Hn. rewrite <- Z.pow_mul_r in Hn by lia. lia. }
    assert (2 * Z.of_nat s <= q).
    { unfold q. apply Z.div_le_lower_bound; lia. }
    lia.
Qed.

(** [encode] of a value that does not fit [s] bytes. *)
Lemma encode_overflow (n : Z) (s : nat) :
  256 ^ Z.of_nat s <= n ->
  encode n s = Raise ValueError
  \/ exists k, (s < k)%nat /\ n < 256 ^ Z.of_nat k /\ encode n s = Ok (be_bytes k n).
Proof.
  intros Hn.
  assert (H0 : 0 < n).
  { assert (0 < 256 ^ Z.of_nat s) by (apply Z.pow_pos_nonneg; lia). lia. }
  destruct (hex_digits_overflow n s Hn) as [Hd Hl].
  unfold encode, int_to_hex.
  destruct (Z.ltb_spec n 0) as [? | _]; [lia |].
  cbv zeta.
  replace (2 * s - length (hex_ n))%nat with 0%nat by lia.
  cbn [repeat app].
  unfold hex_ in *. rewrite be_hex_length in Hd, Hl.
  set (d := S (Z.to_nat (Z.log2 n / 4))) in *.
  destruct (Nat.odd d) eqn:Hodd.
  - left.
    assert (Hr : rev_hex (be_hex d n) = Raise ValueError).
    { unfold rev_hex. rewrite bfh_odd by (rewrite be_hex_length; exact Hodd).
      reflexivity. }
    rewrite Hr. reflexivity.
  - right.
    assert (Hev : Nat.even d = true).
    { rewrite <- Nat.negb_odd, Hodd. reflexivity. }
    apply Nat.even_spec in Hev. destruct Hev as [k Hk].
    exists k. split; [lia |]. split.
    + rewrite Hk in Hd. rewrite Nat2Z.inj_mul in Hd.
      change 256 with (16 ^ 2). rewrite <- Z.pow_mul_r by lia.
      exact Hd.
    + rewrite Hk.
      assert (Hr : rev_hex (be_hex (2 * k) n) = Ok (bh2u (le_bytes k n))).
      { unfold rev_hex. rewrite bfh_be_hex. unfold be_bytes.
        rewrite rev_involutive. reflexivity. }
      rewrite Hr. cbn [rbind].
      unfold rev_hex. rewrite bfh_bh2u by apply le_bytes_wf.
      cbn [rbind]. apply bfh_bh2u. apply wf_bytes_rev, le_bytes_wf.
Qed.

(** ** [get_nonce_bytes] and the counter *)

(** Two different 64-bit counters never give the same AEAD nonce. *)
Theorem get_nonce_bytes_is_injective (n m : Z) :
  0 <= n < 2 ^ 64 -> 0 <= m < 2 ^ 64 -> n <> m ->
  get_nonce_bytes n <> get_nonce_bytes m.
Proof.
  intros Hn Hm Hne Heq.
  rewrite !get_nonce_bytes_le in Heq by assumption.
  assert (Hl : repeat 0 4 ++ le_bytes 8 n = repeat 0 4 ++ le_bytes 8 m)
    by congruence.
  apply app_inv_head in Hl.
  apply (f_equal le_num) in Hl. rewrite !le_num_le_bytes in Hl.
  change (256 ^ Z.of_nat 8) with (2 ^ 64) in Hl.
  rewrite !Z.mod_small in Hl by assumption. contradiction.
Qed.

Lemma get_nonce_bytes_is_injective_witness :
  1 <> 256 /\ get_nonce_bytes 1 <> get_nonce_bytes 256.
Proof.
  split; [lia |]. apply (get_nonce_bytes_is_injective 1 256); lia.
Defined.

Lemma get_nonce_bytes_overflow (n : Z) :
  2 ^ 64 <= n ->
  (exists e, get_nonce_bytes n = Raise e)
  \/ exists nb, get_nonce_bytes n = Ok nb /\ (12 < length nb)%nat.
Proof.
  intros Hn. unfold get_nonce_bytes.
  destruct (encode_overflow n 8 Hn) as [He | (k & Hk & _ & He)].
  - left. exists ValueError. rewrite He. reflexivity.
  - right. rewrite He. cbn [rbind]. eexists. split; [reflexivity |].
    rewrite length_app, length_rev, be_bytes_length, repeat_length. lia.
Qed.

Lemma check_params_long_nonce (key nonce : bytes) :
  (12 < length nonce)%nat ->
  ChaCha20Poly1305.check_params key nonce = Raise ValueError.
Proof.
  intros Hl. unfold ChaCha20Poly1305.check_params.
  destruct (negb (Nat.eqb (length key) 32)); [reflexivity |].
  destruct (Nat.eqb_spec (length nonce) 12); [lia | reflexivity].
Qed.

(** The counter does not wrap: from [2 ^ 64] on, [aead_encrypt] and
    [aead_decrypt] raise, whatever the key and the data. *)
Theorem aead_counter_does_not_wrap (k : bytes) (n : Z) (ad data : bytes) :
  2 ^ 64 <= n ->
  (exists e, aead_encrypt k n ad data = Raise e)
  /\ (exists e, aead_decrypt k n ad data = Raise e).
Proof.
  intros Hn. unfold aead_encrypt, aead_decrypt.
  destruct (get_nonce_bytes_overflow n Hn) as [[e ->] | (nb & -> & Hl)].
  - split; exists e; reflexivity.
  - cbn [rbind]. unfold ChaCha20Poly1305.encrypt, ChaCha20Poly1305.decrypt.
    rewrite check_params_long_nonce by assumption.
    split; exists ValueError; reflexivity.
Qed.

Lemma aead_counter_does_not_wrap_witness :
  (exists e, aead_encrypt test_key (2 ^ 64) [] [1; 2; 3] = Raise e)
  /\ (exists e, aead_decrypt test_key (2 ^ 64) [] [1; 2; 3] = Raise e).
Proof.
  apply (aead_counter_does_not_wrap test_key (2 ^ 64) [] [1; 2; 3]). lia.
Defined.

(** * Further properties of the transport messages *)

(** ** [aead_decrypt] and the tag *)

Lemma aead_encrypt_inv (k : bytes) (n : Z) (ad data c : bytes) :
  aead_encrypt k n ad data = Ok c ->
  exists nb,
    get_nonce_bytes n = Ok nb
    /\ ChaCha20Poly1305.check_params k nb = Ok tt
    /\ c = ChaCha20.encrypt k 1 nb data
           ++ ChaCha20Poly1305.tag_of k nb ad (ChaCha20.encrypt k 1 nb data).
Proof.
  unfold aead_encrypt. intros H.
  apply rbind_Ok in H. destruct H as (nb & Hnb & H).
  unfold ChaCha20Poly1305.encrypt in H.
  apply rbind_Ok in H. destruct H as ([] & Hp & H).
  exists nb. split; [exact Hnb |]. split; [exact Hp | congruence].
Qed.

(** A ciphertext of [aead_encrypt] whose 16-byte tag has been replaced by
    any other 16 bytes is rejected by [aead_decrypt] with [InvalidTag]. *)
Theorem aead_decrypt_rejects_a_changed_tag
    (k : bytes) (n : Z) (ad data c tag' : bytes) :
  aead_encrypt k n ad data = Ok c ->
  length tag' = 16%nat ->
  tag' <> skipn (length data) c ->
  aead_decrypt k n ad (firstn (length data) c ++ tag') = Raise InvalidTag.
Proof.
  intros Henc Hlen Hne.
  destruct (aead_encrypt_inv _ _ _ _ _ Henc) as (nb & Hnb & Hp & ->).
  pose proof (chacha20_encrypt_length k 1 nb data) as Hct.
  rewrite firstn_exact by exact Hct.
  rewrite <- Hct in Hne. rewrite skipn_app, skipn_all, Nat.sub_diag in Hne.
  cbn [app skipn] in Hne.
  unfold aead_decrypt. rewrite Hnb. cbn [rbind].
  apply chacha20poly1305_decrypt_bad_tag; assumption.
Qed.

Lemma aead_decrypt_rejects_a_changed_tag_witness :
  aead_decrypt test_key 1 [] (firstn (length test_msg) (skipn 18 frame1) ++ repeat 0 16)
    = Raise InvalidTag.
Proof.
  apply (aead_decrypt_rejects_a_changed_tag test_key 1 [] test_msg
           (skipn 18 frame1) (repeat 0 16)).
  - vm_compute; reflexivity.
  - reflexivity.
  - vm_compute; discriminate.
Defined.

(** ** [send_message] *)

Lemma len_eqb (bs : bytes) (n : nat) :
  (len bs =? Z.of_nat n) = Nat.eqb (length bs) n.
Proof.
  unfold len. destruct (Nat.eqb_spec (length bs) n) as [-> | Hne].
  - apply Z.eqb_refl.
  - apply Z.eqb_neq. lia.
Qed.

(** [send_message] step by step, for given results of its three calls. *)
Lemma send_message_run (msg sk : bytes) (sn : Z) (w : world) (l lc c : bytes) :
  encode (len msg) 2 = Ok l ->
  aead_encrypt sk sn [] l = Ok lc ->
  aead_encrypt sk (sn + 1) [] msg = Ok c ->
  send_message msg sk sn w =
    if Nat.eqb (length lc) 18
    then Returns tt (mkWorld (reader w) (writer w ++ [lc ++ c])
                             (aead_log w ++ [Encrypt sk sn; Encrypt sk (sn + 1)]))
    else Raises AssertionError
           (mkWorld (reader w) (writer w)
                    (aead_log w ++ [Encrypt sk sn; Encrypt sk (sn + 1)])).
Proof.
  intros Hl Hlc Hc. unfold send_message.
  unfold bind at 1. unfold lift at 1. rewrite Hl.
  unfold bind at 1. unfold traced_encrypt at 1.
  unfold bind at 1. unfold log_use at 1. unfold lift at 1. rewrite Hlc.
  unfold bind at 1. unfold traced_encrypt at 1.
  unfold bind at 1. unfold log_use at 1. unfold lift at 1. rewrite Hc.
  cbn [reader writer aead_log]. rewrite <- app_assoc. cbn [app].
  unfold bind at 1. unfold lift at 1.
  change 18 with (Z.of_nat 18). rewrite len_eqb.
  destruct (Nat.eqb (length lc) 18); cbn [assert_]; [| reflexivity].
  unfold bind at 1. unfold lift at 1.
  pose proof (aead_encrypt_length _ _ _ _ _ Hc) as Hcl.
  replace (len c =? len msg + 16) with true.
  2:{ symmetry. apply Z.eqb_eq. unfold len. lia. }
  cbn [assert_]. unfold writer_write. cbn [reader writer aead_log]. reflexivity.
Qed.

Lemma send_message_ok (msg sk : bytes) (sn : Z) (w : world) :
  length sk = 32%nat -> 0 <= sn -> sn + 1 < 2 ^ 64 -> len msg < 65536 ->
  exists lc c,
    aead_encrypt sk sn [] (be_bytes 2 (len msg)) = Ok lc
    /\ aead_encrypt sk (sn + 1) [] msg = Ok c
    /\ length lc = 18%nat /\ length c = (length msg + 16)%nat
    /\ send_message msg sk sn w =
         Returns tt (mkWorld (reader w) (writer w ++ [lc ++ c])
                             (aead_log w ++ [Encrypt sk sn; Encrypt sk (sn + 1)])).
Proof.
  intros Hk Hn0 Hn1 Hm.
  assert (He : encode (len msg) 2 = Ok (be_bytes 2 (len msg))).
  { apply encode_spec; [| lia]. unfold len in *. change (256 ^ Z.of_nat 2) with 65536. lia. }
  destruct (aead_encrypt_ok sk sn [] (be_bytes 2 (len msg)) Hk ltac:(lia))
    as (lc & Hlc & Hlcl).
  destruct (aead_encrypt_ok sk (sn + 1) [] msg Hk ltac:(lia)) as (c & Hc & Hcl).
  rewrite be_bytes_length in Hlcl.
  exists lc, c. repeat (split; [assumption |]).
  rewrite (send_message_run msg sk sn w _ lc c He Hlc Hc), Hlcl. reflexivity.
Qed.

(** For a 32-byte key, counters below [2 ^ 64] and a message of fewer than
    65536 bytes, [send_message] passes both its [assert]s and writes one
    frame of [18 + len(msg) + 16] bytes: [aead_decrypt] gives the two-byte
    length back from its first 18 bytes under [sn], and the message from the
    rest under [sn + 1].  It reads nothing. *)
Theorem send_message_writes_one_frame (msg sk : bytes) (sn : Z) (w : world) :
  length sk = 32%nat -> 0 <= sn -> sn + 1 < 2 ^ 64 -> len msg < 65536 ->
  exists frame l w',
    send_message msg sk sn w = Returns tt w'
    /\ writer w' = writer w ++ [frame]
    /\ reader w' = reader w
    /\ length frame = (18 + length msg + 16)%nat
    /\ aead_decrypt sk sn [] (firstn 18 frame) = Ok l
    /\ length l = 2%nat /\ decode l = len msg
    /\ aead_decrypt sk (sn + 1) [] (skipn 18 frame) = Ok msg.
Proof.
  intros Hk Hn0 Hn1 Hm.
  destruct (send_message_ok msg sk sn w Hk Hn0 Hn1 Hm)
    as (lc & c & Hlc & Hc & Hlcl & Hcl & Hrun).
  exists (lc ++ c), (be_bytes 2 (len msg)). eexists.
  split; [exact Hrun |]. cbn [reader writer].
  split; [reflexivity |]. split; [reflexivity |].
  split; [rewrite length_app; lia |].
  split; [rewrite firstn_exact by exact Hlcl; apply aead_decrypt_encrypt; exact Hlc |].
  split; [apply be_bytes_length |].
  split.
  - rewrite decode_be_bytes. apply Z.mod_small.
    unfold len in *. change (256 ^ Z.of_nat 2) with 65536. lia.
  - rewrite <- Hlcl, skipn_app, skipn_all, Nat.sub_diag. cbn [app skipn].
    apply aead_decrypt_encrypt. exact Hc.
Qed.

Lemma send_message_writes_one_frame_witness :
  exists frame l w',
    send_message test_msg test_key 0 empty_world = Returns tt w'
    /\ writer w' = writer empty_world ++ [frame]
    /\ reader w' = reader empty_world
    /\ length frame = (18 + length test_msg + 16)%nat
    /\ aead_decrypt test_key 0 [] (firstn 18 frame) = Ok l
    /\ length l = 2%nat /\ decode l = len test_msg
    /\ aead_decrypt test_key (0 + 1) [] (skipn 18 frame) = Ok test_msg.
Proof.
  apply (send_message_writes_one_frame test_msg test_key 0 empty_world);
    [reflexivity | lia | lia | vm_compute; reflexivity].
Defined.

(** A message of 65536 bytes or more is never sent: [send_message]
    raises and writes nothing. *)
Theorem send_message_refuses_65536_bytes (msg sk : bytes) (sn : Z) (w : world) :
  65536 <= len msg ->
  exists e w',
    send_message msg sk sn w = Raises e w'
    /\ writer w' = writer w
    /\ reader w' = reader w.
Proof.
  intros Hm.
  destruct (encode_overflow (len msg) 2) as [He | (k & Hk & _ & He)].
  { change (256 ^ Z.of_nat 2) with 65536. lia. }
  { exists ValueError, w. unfold send_message.
    unfold bind at 1. unfold lift at 1. rewrite He. auto. }
  destruct (aead_encrypt sk sn [] (be_bytes k (len msg))) as [lc | e] eqn:Hlc.
  - destruct (aead_encrypt sk (sn + 1) [] msg) as [c | e] eqn:Hc.
    + exists AssertionError. eexists.
      rewrite (send_message_run msg sk sn w _ lc c He Hlc Hc).
      pose proof (aead_encrypt_length _ _ _ _ _ Hlc) as Hl.
      rewrite be_bytes_length in Hl.
      destruct (Nat.eqb_spec (length lc) 18) as [? | _]; [lia |].
      split; [reflexivity |]. split; reflexivity.
    + exists e. eexists. unfold send_message.
      unfold bind at 1. unfold lift at 1. rewrite He.
      unfold bind at 1. unfold traced_encrypt at 1.
      unfold bind at 1. unfold log_use at 1. unfold lift at 1. rewrite Hlc.
      unfold bind at 1. unfold traced_encrypt at 1.
      unfold bind at 1. unfold log_use at 1. unfold lift at 1. rewrite Hc.
      split; [reflexivity |]. split; reflexivity.
  - exists e. eexists. unfold send_message.
    unfold bind at 1. unfold lift at 1. rewrite He.
    unfold bind at 1. unfold traced_encrypt at 1.
    unfold bind at 1. unfold log_use at 1. unfold lift at 1. rewrite Hlc.
    split; [reflexivity |]. split; reflexivity.
Qed.

Lemma send_message_refuses_65536_bytes_witness :
  exists e w',
    send_message (repeat 0 (Z.to_nat 65536)) test_key 0 empty_world = Raises e w'
    /\ writer w' = writer empty_world
    /\ reader w' = reader empty_world.
Proof.
  apply (send_message_refuses_65536_bytes (repeat 0 (Z.to_nat 65536)) test_key 0 empty_world).
  unfold len. rewrite repeat_length, Z2Nat.id; lia.
Defined.

(** ** [read_message] after [send_message] *)

(** A proper prefix of the chunks is shorter than all of them when no chunk
    is empty. *)
Lemma concat_firstn_shorter (cs : list bytes) :
  Forall (fun c => (1 <= length c)%nat) cs ->
  forall j, (j < length cs)%nat ->
  (length (concat (firstn j cs)) < length (concat cs))%nat.
Proof.
  induction 1 as [| c cs Hc _ IH]; intros j Hj; [cbn in Hj; lia |].
  destruct j as [| j].
  - cbn [firstn concat length]. rewrite length_app. lia.
  - cbn [firstn concat]. rewrite !length_app.
    cbn [length] in Hj. specialize (IH j). lia.
Qed.

Lemma firstn_hd_concat (cs : list bytes) (n : nat) :
  (n <= length (hd [] cs))%nat -> firstn n (hd [] cs) = firstn n (concat cs).
Proof.
  destruct cs as [| c cs]; [reflexivity |].
  cbn [hd concat]. intros Hn. rewrite firstn_app.
  replace (n - length c)%nat with 0%nat by lia.
  cbn [firstn]. rewrite app_nil_r. reflexivity.
Qed.

(** What [send_message] wrote, [read_message] returns: when the frame
    arrives in non-empty chunks of at most 1024 bytes, the first of them at
    least 18 bytes long, [read_message] with the same key and counter
    returns the message, has read exactly these chunks and has decrypted
    the length once per chunk. *)
Theorem read_message_returns_what_send_message_wrote
    (msg k : bytes) (n : Z) (ws ws' : world)
    (cs rest : list bytes) (fuel : nat) (w : world) :
  len msg < 65536 ->
  send_message msg k n ws = Returns tt ws' ->
  writer ws' = writer ws ++ [concat cs] ->
  Forall (fun c => (1 <= length c <= 1024)%nat) cs ->
  (18 <= length (hd [] cs))%nat ->
  (length cs <= fuel)%nat ->
  reader w = cs ++ rest ->
  read_message fuel k n w =
    Returns msg
      (mkWorld rest (writer w)
         (aead_log w ++ repeat (Decrypt k n) (length cs) ++ [Decrypt k (n + 1)])).
Proof.
  intros Hm Hsend Hframe Hcs H18 Hfuel Hr.
  apply send_message_trace in Hsend.
  destruct Hsend as (_ & _ & l & lc & c & He & Hlc & Hc & Hw).
  rewrite Hw in Hframe. apply app_inv_head in Hframe.
  assert (Hcat : concat cs = lc ++ c) by congruence. clear Hframe Hw.
  rewrite encode_spec in He by (unfold len in *; change (256 ^ Z.of_nat 2) with 65536; lia).
  assert (Hl : l = be_bytes 2 (len msg)) by congruence. clear He.
  assert (Hdl : decode l = len msg).
  { rewrite Hl, decode_be_bytes. apply Z.mod_small.
    unfold len in *. change (256 ^ Z.of_nat 2) with 65536. lia. }
  pose proof (aead_encrypt_length _ _ _ _ _ Hlc) as Hlcl.
  rewrite Hl, be_bytes_length in Hlcl. cbn [Nat.add] in Hlcl.
  pose proof (aead_encrypt_length _ _ _ _ _ Hc) as Hcl.
  assert (Hne : cs <> []) by (intros ->; cbn in H18; lia).
  assert (Hlen : len (concat cs) = 18 + decode l + 16).
  { rewrite Hcat, Hdl. unfold len. rewrite length_app. lia. }
  unfold read_message.
  rewrite (read_message_loop_frame k n cs fuel [] w rest l).
  - cbn [app]. rewrite <- Hlen.
    replace (slice 18 (Z.to_nat (len (concat cs))) (concat cs)) with c.
    2:{ unfold slice, len. rewrite Nat2Z.id, Hcat.
        rewrite <- Hlcl at 2. rewrite skipn_app, skipn_all, Nat.sub_diag.
        cbn [app skipn]. rewrite length_app, Hlcl.
        replace (18 + length c - 18)%nat with (length c) by lia.
        symmetry. apply firstn_all. }
    rewrite (aead_decrypt_encrypt _ _ _ _ _ Hc). reflexivity.
  - exact Hr.
  - exact Hne.
  - eapply Forall_impl; [| exact Hcs]. cbv beta. intros a Ha. lia.
  - exact Hfuel.
  - cbn [app]. exact H18.
  - cbn [app]. rewrite firstn_hd_concat by exact H18.
    rewrite Hcat, firstn_exact by exact Hlcl.
    apply aead_decrypt_encrypt. exact Hlc.
  - intros j Hj. cbn [app]. rewrite <- Hlen. unfold len.
    apply Nat2Z.inj_lt. apply concat_firstn_shorter; [| lia].
    eapply Forall_impl; [| exact Hcs]. cbv beta. intros a Ha. lia.
  - cbn [app]. lia.
Qed.

Lemma read_message_returns_what_send_message_wrote_witness :
  read_message 2 test_key 0 (mkWorld [firstn 20 frame1; skipn 20 frame1; [9]] [] []) =
    Returns test_msg
      (mkWorld [[9]] []
         ([] ++ repeat (Decrypt test_key 0) 2 ++ [Decrypt test_key (0 + 1)])).
Proof.
  apply (read_message_returns_what_send_message_wrote test_msg test_key 0
           empty_world (mkWorld [] [frame1] [Encrypt test_key 0; Encrypt test_key 1])
           [firstn 20 frame1; skipn 20 frame1] [[9]] 2
           (mkWorld [firstn 20 frame1; skipn 20 frame1; [9]] [] [])).
  - vm_compute; reflexivity.
  - vm_compute; reflexivity.
  - vm_compute; reflexivity.
  - repeat constructor; vm_compute; lia.
  - vm_compute; lia.
  - vm_compute; lia.
  - reflexivity.
Defined.

(** ** [read_message] at the end of the stream *)

(** At the end of the stream [reader.read] returns [b''], and
    [read_message] raises [InvalidTag] on the empty length part. *)
Theorem read_message_raises_at_end_of_stream
    (fuel : nat) (rk : bytes) (rn : Z) (w : world) :
  length rk = 32%nat -> 0 <= rn < 2 ^ 64 ->
  reader w = [] ->
  read_message (S fuel) rk rn w =
    Raises InvalidTag (mkWorld [] (writer w) (aead_log w ++ [Decrypt rk rn])).
Proof.
  intros Hk Hn Hr. unfold read_message.
  rewrite (read_message_loop_turn fuel rk rn [] [] w w (reader_read_eof w _ Hr)).
  cbv zeta. cbn [app firstn].
  rewrite aead_decrypt_short by (assumption || (cbn [length]; lia)).
  unfold with_log. rewrite Hr. reflexivity.
Qed.

Lemma read_message_raises_at_end_of_stream_witness :
  read_message 1 test_key 0 (mkWorld [] [[1; 2]] []) =
    Raises InvalidTag (mkWorld [] [[1; 2]] ([] ++ [Decrypt test_key 0])).
Proof.
  apply (read_message_raises_at_end_of_stream 0 test_key 0 (mkWorld [] [[1; 2]] []));
    [reflexivity | lia | reflexivity].
Defined.

(** Once the stream has ended, a buffer that holds the length part but not
    the whole frame stays as it is, turn after turn. *)
Lemma read_message_loop_spins (rk : bytes) (rn : Z) (buf l : bytes) (fuel : nat) :
  forall w,
  reader w = [] ->
  aead_decrypt rk rn [] (firstn 18 buf) = Ok l ->
  len buf < 18 + decode l + 16 ->
  read_message_loop fuel rk rn buf w = OutOfFuel.
Proof.
  induction fuel as [| fuel IH]; intros w Hr Hl Hshort; [reflexivity |].
  rewrite (read_message_loop_turn fuel rk rn buf [] w w (reader_read_eof w _ Hr)).
  cbv zeta. rewrite app_nil_r, Hl.
  destruct (Z.ltb_spec (len buf) (18 + decode l + 16)); [| lia].
  apply IH; [exact Hr | exact Hl | exact Hshort].
Qed.

(** A stream that ends after the length part and before the end of the
    frame: [read_message] neither returns nor raises, whatever the number
    of turns it is given. *)
Theorem read_message_never_returns_on_a_cut_frame
    (fuel : nat) (rk : bytes) (rn : Z) (c l : bytes) (w : world) :
  reader w = [c] ->
  (length c <= 1024)%nat ->
  aead_decrypt rk rn [] (firstn 18 c) = Ok l ->
  len c < 18 + decode l + 16 ->
  read_message fuel rk rn w = OutOfFuel.
Proof.
  intros Hr Hc Hl Hshort. unfold read_message.
  destruct fuel as [| fuel]; [reflexivity |].
  rewrite (read_message_loop_turn fuel rk rn [] c w _ (reader_read_chunk w c [] Hr Hc)).
  cbv zeta. cbn [app]. rewrite Hl.
  destruct (Z.ltb_spec (len c) (18 + decode l + 16)); [| lia].
  apply (read_message_loop_spins rk rn c l); [reflexivity | exact Hl | exact Hshort].
Qed.

Lemma read_message_never_returns_on_a_cut_frame_witness :
  read_message 1000 test_key 0 (mkWorld [firstn 30 frame1] [] []) = OutOfFuel.
Proof.
  apply (read_message_never_returns_on_a_cut_frame 1000 test_key 0 (firstn 30 frame1)
           [0; 5] (mkWorld [firstn 30 frame1] [] [])).
  - reflexivity.
  - vm_compute; lia.
  - vm_compute; reflexivity.
  - vm_compute; reflexivity.
Defined.

(** * Further properties of the handshake *)

(** ** [HandshakeState] *)

Lemma fold_update (datas : list bytes) :
  forall hs,
    h (fold_left update datas hs)
      = fold_left (fun acc d => H256 (acc ++ d)) datas (h hs)
    /\ ck (fold_left update datas hs) = ck hs
    /\ responder_pub (fold_left update datas hs) = responder_pub hs.
Proof.
  induction datas as [| d datas IH]; intros hs; [auto |].
  cbn [fold_left]. destruct (IH (update hs d)) as (Hh & Hck & Hpub).
  rewrite Hh, Hck, Hpub. cbn [update h ck responder_pub]. auto.
Qed.

Lemma running_hash_length (datas : list bytes) :
  forall x, length x = 32%nat ->
  length (fold_left (fun acc d => H256 (acc ++ d)) datas x) = 32%nat.
Proof.
  induction datas as [| d datas IH]; intros x Hx; [exact Hx |].
  cbn [fold_left]. apply IH. apply sha256_length.
Qed.

Lemma HandshakeState_init_eq (pub h0 : bytes) :
  h0 = H256 protocol_name ->
  HandshakeState_init pub
    = update (update (mkHandshakeState pub h0 h0) prologue) pub.
Proof. intros ->. reflexivity. Qed.

Lemma update_fields (hs : HandshakeState) (d : bytes) :
  h (update hs d) = H256 (h hs ++ d)
  /\ ck (update hs d) = ck hs
  /\ responder_pub (update hs d) = responder_pub hs.
Proof. repeat split. Qed.

Lemma init_fields (pub : bytes) :
  h (HandshakeState_init pub) = H256 (H256 (H256 protocol_name ++ prologue) ++ pub)
  /\ ck (HandshakeState_init pub) = H256 protocol_name
  /\ responder_pub (HandshakeState_init pub) = pub.
Proof.
  rewrite (HandshakeState_init_eq pub (H256 protocol_name) eq_refl).
  generalize (H256 protocol_name). intros h0.
  destruct (update_fields (update (mkHandshakeState pub h0 h0) prologue) pub)
    as (-> & -> & ->).
  destruct (update_fields (mkHandshakeState pub h0 h0) prologue) as (-> & -> & ->).
  repeat split.
Qed.

(** The transcript hash: after [__init__] and any sequence of [update]
    calls, [h] is the running SHA-256 of the protocol name, the prologue,
    the responder key and the data, in this order; it has 32 bytes;
    [update] never touches [ck] nor [responder_pub]. *)
Theorem handshake_hash_is_the_running_hash (pub : bytes) (datas : list bytes) :
  let hs := fold_left update datas (HandshakeState_init pub) in
  h hs = fold_left (fun acc d => H256 (acc ++ d)) (prologue :: pub :: datas)
           (H256 protocol_name)
  /\ ck hs = H256 protocol_name
  /\ responder_pub hs = pub
  /\ length (h hs) = 32%nat.
Proof.
  cbv zeta.
  destruct (fold_update datas (HandshakeState_init pub)) as (Hh & Hck & Hpub).
  destruct (init_fields pub) as (Hh0 & Hck0 & Hpub0).
  rewrite Hh, Hck, Hpub, Hh0, Hck0, Hpub0.
  generalize (H256 protocol_name). intros h0.
  split; [reflexivity |]. split; [reflexivity |]. split; [reflexivity |].
  apply running_hash_length. apply sha256_length.
Qed.

(** ** The private key *)

Section HandshakeMore.
Context {EC : Curve}.

Lemma privkey_to_pubkey_firstn (privkey : bytes) :
  privkey_to_pubkey (firstn 32 privkey) = privkey_to_pubkey privkey.
Proof.
  unfold privkey_to_pubkey. rewrite firstn_firstn.
  replace (Nat.min 32 32) with 32%nat by reflexivity. reflexivity.
Qed.

Lemma firstn_32_idem (privkey : bytes) :
  firstn 32 (firstn 32 privkey) = firstn 32 privkey.
Proof.
  rewrite firstn_firstn. replace (Nat.min 32 32) with 32%nat by reflexivity.
  reflexivity.
Qed.

Lemma create_ephemeral_key_firstn (privkey : bytes) :
  create_ephemeral_key (firstn 32 privkey) = create_ephemeral_key privkey.
Proof.
  rewrite !create_ephemeral_key_eq, privkey_to_pubkey_firstn, firstn_32_idem.
  reflexivity.
Qed.

Lemma act1_initiator_message_firstn (hs : HandshakeState) (privkey : bytes) :
  act1_initiator_message hs (firstn 32 privkey) = act1_initiator_message hs privkey.
Proof.
  unfold act1_initiator_message. rewrite create_ephemeral_key_firstn. reflexivity.
Qed.

(** Only the first 32 bytes of the private key are used: [main_loop] run
    with [privkey[:32]] is [main_loop] run with [privkey]. *)
Theorem only_32_bytes_of_the_private_key_are_used
    (fuel : nat) (privkey pubkey : bytes) (w : world) :
  privkey_to_pubkey (firstn 32 privkey) = privkey_to_pubkey privkey
  /\ main_loop fuel (firstn 32 privkey) pubkey w = main_loop fuel privkey pubkey w.
Proof.
  split; [apply privkey_to_pubkey_firstn |].
  assert (Hh : main_loop_handshake (firstn 32 privkey) pubkey
               = main_loop_handshake privkey pubkey).
  { unfold main_loop_handshake. cbv zeta.
    rewrite act1_initiator_message_firstn, create_ephemeral_key_firstn,
      privkey_to_pubkey_firstn, firstn_32_idem.
    reflexivity. }
  unfold main_loop. rewrite Hh. reflexivity.
Qed.

(** ** Act 2 and Act 3 *)

(** The handshake up to the decryption of the tag of Act 2. *)
Lemma main_loop_handshake_act2
    (my_privkey pubkey : bytes) (w w1 : world) (msg : bytes) (hs1 : HandshakeState)
    (rspns ss ck2 temp_k2 : bytes) :
  act1_initiator_message (HandshakeState_init pubkey) my_privkey = Ok (msg, hs1) ->
  reader_read (2 ^ 10) (mkWorld (reader w) (writer w ++ [msg]) (aead_log w))
    = Returns rspns w1 ->
  length rspns = 50%nat -> nth 0 rspns 0 = 0 ->
  get_ecdh (firstn 32 my_privkey) (slice 1 34 rspns) = Ok ss ->
  get_bolt8_hkdf (ck hs1) ss = Ok (ck2, temp_k2) ->
  forall e,
  aead_decrypt temp_k2 0 (H256 (h hs1 ++ slice 1 34 rspns)) (skipn 34 rspns) = Raise e ->
  main_loop_handshake my_privkey pubkey w = Raises e w1.
Proof.
  intros Hact1 Hread Hl Hv Hecdh Hk e Hdec.
  assert (Heph : exists epub, create_ephemeral_key my_privkey
                              = Ok (firstn 32 my_privkey, epub)).
  { apply act1_initiator_message_Ok in Hact1.
    destruct Hact1 as (epub & _ & Hpub & _).
    exists epub. rewrite create_ephemeral_key_eq, Hpub. reflexivity. }
  destruct Heph as [epub Heph].
  unfold main_loop_handshake. cbv zeta.
  unfold bind at 1. unfold lift at 1. rewrite Hact1. cbv beta iota.
  unfold bind at 1. unfold writer_write at 1. cbv beta iota.
  unfold bind at 1. rewrite Hread.
  unfold bind at 1. unfold lift at 1. rewrite Hl. cbn [Nat.eqb assert_].
  unfold bind at 1. unfold lift at 1. rewrite Hv.
  rewrite bytes_eqb_refl. cbn [assert_].
  unfold bind at 1. unfold lift at 1. rewrite Heph. cbv beta iota.
  unfold bind at 1. unfold lift at 1. rewrite Hecdh.
  cbn [update set_ck ck h responder_pub].
  unfold bind at 1. unfold lift at 1. rewrite Hk. cbv beta iota.
  unfold bind at 1. unfold lift at 1. rewrite Hdec. reflexivity.
Qed.

(** Act 3 is sent only after Act 2 has authenticated: when the tag of a
    well-formed Act 2 reply does not decrypt, [main_loop] raises the error
    of [aead_decrypt] and has written nothing but Act 1. *)
Theorem act3_is_not_sent_unless_act2_authenticates
    (my_privkey pubkey : bytes) (w w1 : world) (msg : bytes) (hs1 : HandshakeState)
    (rspns ss ck2 temp_k2 : bytes) (e : exn) :
  act1_initiator_message (HandshakeState_init pubkey) my_privkey = Ok (msg, hs1) ->
  reader_read (2 ^ 10) (mkWorld (reader w) (writer w ++ [msg]) (aead_log w))
    = Returns rspns w1 ->
  length rspns = 50%nat -> nth 0 rspns 0 = 0 ->
  get_ecdh (firstn 32 my_privkey) (slice 1 34 rspns) = Ok ss ->
  get_bolt8_hkdf (ck hs1) ss = Ok (ck2, temp_k2) ->
  aead_decrypt temp_k2 0 (H256 (h hs1 ++ slice 1 34 rspns)) (skipn 34 rspns) = Raise e ->
  main_loop_handshake my_privkey pubkey w = Raises e w1
  /\ main_loop 1 my_privkey pubkey w = Raises e w1
  /\ writer w1 = writer w ++ [msg].
Proof.
  intros Hact1 Hread Hl Hv Hecdh Hk Hdec.
  pose proof (main_loop_handshake_act2 _ _ _ _ _ _ _ _ _ _
                Hact1 Hread Hl Hv Hecdh Hk e Hdec) as Hh.
  split; [exact Hh |].
  split; [unfold main_loop, bind; rewrite Hh; reflexivity |].
  destruct (reader_read_total (2 ^ 10)
              (mkWorld (reader w) (writer w ++ [msg]) (aead_log w)))
    as (chunk & wr & Hread' & Hwr & _).
  rewrite Hread in Hread'.
  assert (Hw : w1 = wr) by congruence. rewrite Hw. exact Hwr.
Qed.

End HandshakeMore.

Section CompletedHandshake.
Context {EC : Curve}.

Ltac invert_lift H a Ha :=
  apply bind_Returns in H;
  let w1 := fresh "w" in
  destruct H as (a & w1 & Ha & H);
  apply lift_Returns in Ha; destruct Ha as [Ha ->].

(** The tag of a successful Act 1 is an AEAD output for the empty
    plaintext. *)
Lemma act1_initiator_message_tag
    (hs hs' : HandshakeState) (my_privkey msg : bytes) :
  act1_initiator_message hs my_privkey = Ok (msg, hs') ->
  exists epub k ad tag,
    privkey_to_pubkey my_privkey = Ok epub
    /\ aead_encrypt k 0 ad [] = Ok tag
    /\ msg = handshake_version ++ epub ++ tag
    /\ length msg = 50%nat.
Proof.
  unfold act1_initiator_message. intros H.
  apply rbind_Ok in H. destruct H as ([epriv epub] & Heph & H).
  rewrite create_ephemeral_key_eq in Heph.
  destruct (privkey_to_pubkey my_privkey) as [pub |]; [| discriminate].
  assert (He : epub = pub) by congruence. subst pub. clear Heph.
  cbv zeta in H.
  apply rbind_Ok in H. destruct H as (ss & _ & H).
  apply rbind_Ok in H. destruct H as ([ck2 k1] & _ & H).
  apply rbind_Ok in H. destruct H as (tag & Htag & H).
  apply rbind_Ok in H. destruct H as (u & Hlen & H).
  assert (Hm : msg = handshake_version ++ epub ++ tag) by congruence.
  exists epub, k1. eexists. exists tag.
  split; [reflexivity |]. split; [exact Htag |]. split; [exact Hm |].
  unfold assert_ in Hlen. subst msg.
  destruct (Nat.eqb_spec (length (handshake_version ++ epub ++ tag)) 50);
    [assumption | discriminate].
Qed.

(** Everything a handshake that completes has computed. *)
Lemma main_loop_handshake_inv
    (my_privkey pubkey : bytes) (w w' : world) (sk rk : bytes) :
  main_loop_handshake my_privkey pubkey w = Returns (sk, rk) w' ->
  exists msg1 hs1 rspns w1 epub ss ck2 temp_k2 p c temp_k3 h4 t ck3,
    act1_initiator_message (HandshakeState_init pubkey) my_privkey = Ok (msg1, hs1)
    /\ reader_read (2 ^ 10) (mkWorld (reader w) (writer w ++ [msg1]) (aead_log w))
         = Returns rspns w1
    /\ length rspns = 50%nat
    /\ privkey_to_pubkey my_privkey = Ok epub
    /\ get_ecdh (firstn 32 my_privkey) (slice 1 34 rspns) = Ok ss
    /\ get_bolt8_hkdf (ck hs1) ss = Ok (ck2, temp_k2)
    /\ aead_decrypt temp_k2 0 (H256 (h hs1 ++ slice 1 34 rspns)) (skipn 34 rspns) = Ok p
    /\ aead_encrypt temp_k2 1
         (H256 (H256 (h hs1 ++ slice 1 34 rspns) ++ skipn 34 rspns)) epub = Ok c
    /\ aead_encrypt temp_k3 0 h4 [] = Ok t
    /\ get_bolt8_hkdf ck3 [] = Ok (sk, rk)
    /\ w' = mkWorld (reader w1) (writer w1 ++ [handshake_version ++ c ++ t]) (aead_log w1).
Proof.
  unfold main_loop_handshake. cbv zeta. intros H.
  invert_lift H p1 Hact1. destruct p1 as [msg1 hs1]. cbv beta iota in H.
  apply bind_Returns in H. destruct H as (u1 & w1 & Hw1 & H).
  unfold writer_write in Hw1. cbv beta in Hw1.
  assert (Hw1' : w1 = mkWorld (reader w) (writer w ++ [msg1]) (aead_log w))
    by congruence.
  subst w1. clear Hw1.
  apply bind_Returns in H. destruct H as (rspns & w2 & Hread & H).
  invert_lift H u2 Hlen. invert_lift H u3 Hver.
  invert_lift H p2 Heph. destruct p2 as [myepriv myepub]. cbv beta iota in H.
  invert_lift H ss2 Hss2.
  invert_lift H p3 Hk2. destruct p3 as [ck2 temp_k2]. cbv beta iota in H.
  invert_lift H pl Hdec.
  invert_lift H my_pubkey Hpub.
  invert_lift H c Hc.
  invert_lift H ss3 Hss3.
  invert_lift H p4 Hk3. destruct p4 as [ck3 temp_k3]. cbv beta iota in H.
  invert_lift H t Ht.
  invert_lift H p5 Hkeys. destruct p5 as [sk' rk']. cbv beta iota in H.
  apply bind_Returns in H. destruct H as (u4 & w3 & Hw3 & H).
  unfold writer_write in Hw3. cbv beta in Hw3.
  injection Hw3 as _ Hw3. subst w3.
  unfold ret in H. cbv beta in H.
  injection H as Hsk Hrk Hw'. subst sk' rk' w'.
  rewrite create_ephemeral_key_eq in Heph.
  destruct (privkey_to_pubkey my_privkey) as [epub |] eqn:Epub; [| discriminate].
  assert (He1 : myepriv = firstn 32 my_privkey) by congruence.
  assert (He2 : my_pubkey = epub) by congruence.
  subst myepriv my_pubkey. clear Heph Hpub.
  unfold assert_ in Hlen.
  destruct (Nat.eqb_spec (length rspns) 50) as [Hl50 |]; [| discriminate].
  cbn [update set_ck ck h responder_pub] in Hk2, Hdec, Hc.
  exists msg1, hs1, rspns, w2, epub, ss2, ck2, temp_k2, pl, c, temp_k3.
  eexists. exists t. eexists.
  split; [exact Hact1 |]. split; [exact Hread |]. split; [exact Hl50 |].
  split; [reflexivity |]. split; [exact Hss2 |]. split; [exact Hk2 |].
  split; [exact Hdec |]. split; [exact Hc |]. split; [exact Ht |].
  split; [exact Hkeys | reflexivity].
Qed.

(** A handshake that completes has written two messages, Act 1 of 50
    bytes and Act 3 of 66 bytes, both starting with the version byte
    [0x00]; the public key of the caller has 33 bytes and the two transport
    keys 32 bytes each. *)
Theorem completed_handshake_writes_50_and_66_bytes
    (my_privkey pubkey : bytes) (w w' : world) (sk rk : bytes) :
  main_loop_handshake my_privkey pubkey w = Returns (sk, rk) w' ->
  exists act1 act3 my_pubkey,
    writer w' = writer w ++ [act1; act3]
    /\ length act1 = 50%nat /\ length act3 = 66%nat
    /\ hd 1 act1 = 0 /\ hd 1 act3 = 0
    /\ privkey_to_pubkey my_privkey = Ok my_pubkey
    /\ length my_pubkey = 33%nat
    /\ length sk = 32%nat /\ length rk = 32%nat
    /\ aead_log w' = aead_log w.
Proof.
  intros H. apply main_loop_handshake_inv in H.
  destruct H as (msg1 & hs1 & rspns & w1 & epub & ss & ck2 & temp_k2 & p & c
                 & temp_k3 & h4 & t & ck3
                 & Hact1 & Hread & _ & Hpub & _ & _ & _ & Hc & Ht & Hkeys & ->).
  apply act1_initiator_message_tag in Hact1.
  destruct Hact1 as (epub' & k1 & ad & tag & Hpub' & Htag & Hmsg & Hlen).
  assert (He : epub' = epub) by congruence. subst epub'.
  pose proof (aead_encrypt_length _ _ _ _ _ Htag) as Htl.
  pose proof (aead_encrypt_length _ _ _ _ _ Hc) as Hcl.
  pose proof (aead_encrypt_length _ _ _ _ _ Ht) as Httl.
  cbn [length Nat.add] in Htl, Httl.
  assert (Hel : length epub = 33%nat).
  { rewrite Hmsg in Hlen. unfold handshake_version in Hlen.
    cbn [app length] in Hlen. rewrite length_app in Hlen. lia. }
  destruct (get_bolt8_hkdf_lengths _ _ _ _ Hkeys) as [Hsk Hrk].
  destruct (reader_read_total (2 ^ 10)
              (mkWorld (reader w) (writer w ++ [msg1]) (aead_log w)))
    as (chunk & wr & Hread' & Hwr & Hlg).
  rewrite Hread in Hread'.
  assert (Hw : w1 = wr) by congruence. subst wr. clear Hread'.
  cbn [writer aead_log] in Hwr, Hlg.
  exists msg1, (handshake_version ++ c ++ t), epub.
  cbn [writer aead_log].
  split; [rewrite Hwr, <- app_assoc; reflexivity |].
  split; [exact Hlen |].
  split; [unfold handshake_version; cbn [app length]; rewrite length_app; lia |].
  split; [rewrite Hmsg; reflexivity |].
  split; [reflexivity |].
  split; [exact Hpub |]. split; [exact Hel |].
  split; [exact Hsk |]. split; [exact Hrk | exact Hlg].
Qed.

End CompletedHandshake.

(** ** The transport messages of [main_loop] *)

(** After the handshake, a [main_loop] that completes has written two
    frames: 40 bytes that carry the init message [00 10 00 00 00 00] under
    the sending key with nonce 1, then 44 bytes that carry the ping
    [00 12 00 04 00 04 00 00 00 00] under nonce 3. *)
Theorem main_loop_transport_sends_init_then_ping
    (fuel : nat) (sk rk : bytes) (w w' : world) :
  main_loop_transport fuel sk rk w = Returns tt w' ->
  exists init_frame ping_frame,
    writer w' = writer w ++ [init_frame; ping_frame]
    /\ length init_frame = 40%nat /\ length ping_frame = 44%nat
    /\ aead_decrypt sk 1 [] (skipn 18 init_frame) = Ok [0; 16; 0; 0; 0; 0]
    /\ aead_decrypt sk 3 [] (skipn 18 ping_frame) = Ok [0; 18; 0; 4; 0; 4; 0; 0; 0; 0].
Proof.
  unfold main_loop_transport, process_message, read_message. intros H.
  apply bind_Returns in H. destruct H as (m1 & w1 & Hr1 & H).
  apply read_message_loop_trace in Hr1. destruct Hr1 as (k1 & _ & _ & Hw1).
  apply bind_Returns in H. destruct H as (? & w2 & Hp & H).
  assert (Hw2 : w2 = w1) by (unfold ret in Hp; cbv beta in Hp; congruence). subst w2. clear Hp.
  apply bind_Returns in H. destruct H as (e16 & ? & He16 & H).
  apply lift_Returns in He16. destruct He16 as [He16 ->].
  apply bind_Returns in H. destruct H as (e0 & ? & He0 & H).
  apply lift_Returns in He0. destruct He0 as [He0 ->].
  apply bind_Returns in H. destruct H as (e0' & ? & He0' & H).
  apply lift_Returns in He0'. destruct He0' as [He0' ->].
  apply bind_Returns in H. destruct H as (u1 & w3 & Hs1 & H). destruct u1.
  apply send_message_trace in Hs1.
  destruct Hs1 as (_ & _ & l1 & lc1 & c1 & Hl1 & Hlc1 & Hc1 & Hw3).
  apply bind_Returns in H. destruct H as (e1 & ? & He1 & H).
  apply lift_Returns in He1. destruct He1 as [He1 ->].
  apply bind_Returns in H. destruct H as (e2 & ? & He2 & H).
  apply lift_Returns in He2. destruct He2 as [He2 ->].
  apply bind_Returns in H. destruct H as (e3 & ? & He3 & H).
  apply lift_Returns in He3. destruct He3 as [He3 ->].
  apply bind_Returns in H. destruct H as (u2 & w4 & Hs2 & H). destruct u2.
  apply send_message_trace in Hs2.
  destruct Hs2 as (_ & _ & l2 & lc2 & c2 & Hl2 & Hlc2 & Hc2 & Hw4).
  apply bind_Returns in H. destruct H as (m2 & w5 & Hr2 & H).
  apply read_message_loop_trace in Hr2. destruct Hr2 as (k2 & _ & _ & Hw5).
  apply bind_Returns in H. destruct H as (? & w6 & Hp & H).
  assert (Hw6 : w' = w5) by (unfold ret in Hp, H; cbv beta in Hp, H; congruence). subst w'. clear Hp H.
  assert (E16 : e16 = [0; 16]) by (vm_compute in He16; congruence).
  assert (E0 : e0 = [0; 0]) by (vm_compute in He0; congruence).
  assert (E0' : e0' = [0; 0]) by (vm_compute in He0'; congruence).
  assert (E1 : e1 = [0; 18]) by (vm_compute in He1; congruence).
  assert (E2 : e2 = [0; 4]) by (vm_compute in He2; congruence).
  assert (E3 : e3 = [0; 4]) by (vm_compute in He3; congruence).
  subst e16 e0 e0' e1 e2 e3. clear He16 He0 He0' He1 He2 He3.
  change ([0; 16] ++ [0; 0] ++ [0; 0]) with [0; 16; 0; 0; 0; 0] in *.
  change ([0; 18] ++ [0; 4] ++ [0; 4] ++ repeat 0 (Z.to_nat 4))
    with [0; 18; 0; 4; 0; 4; 0; 0; 0; 0] in *.
  assert (L1 : l1 = [0; 6]) by (vm_compute in Hl1; congruence).
  assert (L2 : l2 = [0; 10]) by (vm_compute in Hl2; congruence).
  subst l1 l2. clear Hl1 Hl2.
  pose proof (aead_encrypt_length _ _ _ _ _ Hlc1) as A1.
  pose proof (aead_encrypt_length _ _ _ _ _ Hc1) as A2.
  pose proof (aead_encrypt_length _ _ _ _ _ Hlc2) as A3.
  pose proof (aead_encrypt_length _ _ _ _ _ Hc2) as A4.
  cbn [length Nat.add] in A1, A2, A3, A4.
  exists (lc1 ++ c1), (lc2 ++ c2).
  split; [rewrite Hw5, Hw4, Hw3, Hw1, <- app_assoc; reflexivity |].
  split; [rewrite length_app; lia |].
  split; [rewrite length_app; lia |].
  split.
  - rewrite <- A1, skipn_app, skipn_all, Nat.sub_diag. cbn [app skipn].
    apply (aead_decrypt_encrypt _ _ _ _ _ Hc1).
  - rewrite <- A3, skipn_app, skipn_all, Nat.sub_diag. cbn [app skipn].
    apply (aead_decrypt_encrypt _ _ _ _ _ Hc2).
Qed.

(** ** The models on the test vectors of their standards *)

(** FIPS 180-4, the one-block message. *)
Example sha256_abc :
  SHA256.sha256 (bytes_of_ascii (list_ascii_of_string "abc"%string))
  = unhex "ba7816bf8f01cfea414140de5dae2223b00361a396177a9cb410ff61f20015ad".
Proof. vm_compute; reflexivity. Qed.

(** RFC 4231, test case 2. *)
Example hmac_sha256_rfc4231_2 :
  HMAC.hmac_sha256
    (bytes_of_ascii (list_ascii_of_string "Jefe"%string))
    (bytes_of_ascii (list_ascii_of_string "what do ya want for nothing?"%string))
  = unhex "5bdcc146bf60754e6a042426089575c75a003f089d2739839dec58b964ec3843".
Proof. vm_compute; reflexivity. Qed.

(** RFC 8439, section 2.8.2: the first block of the ciphertext and the
    tag. *)
Example chacha20poly1305_rfc8439 :
  exists c,
    ChaCha20Poly1305.encrypt
      (map Z.of_nat (seq 128 32))
      (unhex "070000004041424344454647")
      (bytes_of_ascii (list_ascii_of_string
         "Ladies and Gentlemen of the class of '99: If I could offer you only one tip for the future, sunscreen would be it."%string))
      (unhex "50515253c0c1c2c3c4c5c6c7")
    = Ok c
    /\ firstn 16 c = unhex "d31a8d34648e60db7b86afbc53ef7ec2"
    /\ skipn 114 c = unhex "1ae10b594f09e26a7e902ecbd0600691".
Proof. eexists. vm_compute. repeat split. Qed.

(** ** Runs on secp256k1 *)

Lemma test_act1_ok :
  act1_initiator_message (EC := Secp256k1.curve)
    (HandshakeState_init bolt8_rs_pub) test_privkey
  = Ok (fst test_act1, snd test_act1).
Proof. vm_compute; reflexivity. Qed.

Lemma test_handshake_ok :
  main_loop_handshake (EC := Secp256k1.curve) test_privkey bolt8_rs_pub
    (mkWorld [test_act2] [] [])
  = Returns (fst test_keys, snd test_keys)
      (mkWorld [] (firstn 2 (writer test_final)) []).
Proof. vm_compute; reflexivity. Qed.

Lemma act3_is_not_sent_unless_act2_authenticates_witness :
  main_loop_handshake (EC := Secp256k1.curve) test_privkey bolt8_rs_pub
    (mkWorld [test_act2_bad] [] [])
    = Raises InvalidTag (mkWorld [] [fst test_act1] [])
  /\ main_loop (EC := Secp256k1.curve) 1 test_privkey bolt8_rs_pub
       (mkWorld [test_act2_bad] [] [])
     = Raises InvalidTag (mkWorld [] [fst test_act1] [])
  /\ writer (mkWorld [] [fst test_act1] []) = [] ++ [fst test_act1].
Proof.
  apply (act3_is_not_sent_unless_act2_authenticates (EC := Secp256k1.curve)
           test_privkey bolt8_rs_pub (mkWorld [test_act2_bad] [] [])
           (mkWorld [] [fst test_act1] []) (fst test_act1) (snd test_act1)
           test_act2_bad test_ss2 (fst test_hkdf2) (snd test_hkdf2) InvalidTag).
  - exact test_act1_ok.
  - vm_compute; reflexivity.
  - reflexivity.
  - reflexivity.
  - vm_compute; reflexivity.
  - vm_compute; reflexivity.
  - vm_compute; reflexivity.
Defined.

Lemma completed_handshake_writes_50_and_66_bytes_witness :
  exists act1 act3 my_pubkey,
    writer (mkWorld [] (firstn 2 (writer test_final)) [])
      = writer (mkWorld [test_act2] [] []) ++ [act1; act3]
    /\ length act1 = 50%nat /\ length act3 = 66%nat
    /\ hd 1 act1 = 0 /\ hd 1 act3 = 0
    /\ privkey_to_pubkey (EC := Secp256k1.curve) test_privkey = Ok my_pubkey
    /\ length my_pubkey = 33%nat
    /\ length (fst test_keys) = 32%nat /\ length (snd test_keys) = 32%nat
    /\ aead_log (mkWorld [] (firstn 2 (writer test_final)) [])
       = aead_log (mkWorld [test_act2] [] []).
Proof.
  apply (completed_handshake_writes_50_and_66_bytes (EC := Secp256k1.curve)
           test_privkey bolt8_rs_pub (mkWorld [test_act2] [] [])
           (mkWorld [] (firstn 2 (writer test_final)) [])
           (fst test_keys) (snd test_keys)).
  exact test_handshake_ok.
Defined.

Lemma main_loop_transport_sends_init_then_ping_witness :
  exists init_frame ping_frame,
    writer test_final
      = writer (mkWorld (tl (reader test_world)) (firstn 2 (writer test_final)) [])
        ++ [init_frame; ping_frame]
    /\ length init_frame = 40%nat /\ length ping_frame = 44%nat
    /\ aead_decrypt (fst test_keys) 1 [] (skipn 18 init_frame) = Ok [0; 16; 0; 0; 0; 0]
    /\ aead_decrypt (fst test_keys) 3 [] (skipn 18 ping_frame)
       = Ok [0; 18; 0; 4; 0; 4; 0; 0; 0; 0].
Proof.
  apply (main_loop_transport_sends_init_then_ping 2 (fst test_keys) (snd test_keys)
           (mkWorld (tl (reader test_world)) (firstn 2 (writer test_final)) [])
           test_final).
  vm_compute; reflexivity.
Defined.

(** ** The Act 2 reply and the reads of the stream *)

(** A reply that fails one of the two checks ends the handshake there,
    whatever the curve. *)
Lemma main_loop_handshake_bad_reply {EC : Curve}
    (my_privkey pubkey : bytes) (w w1 : world) (msg : bytes) (hs1 : HandshakeState)
    (rspns : bytes) :
  act1_initiator_message (HandshakeState_init pubkey) my_privkey = Ok (msg, hs1) ->
  reader_read (2 ^ 10) (mkWorld (reader w) (writer w ++ [msg]) (aead_log w))
    = Returns rspns w1 ->
  length rspns <> 50%nat \/ nth 0 rspns 0 <> 0 ->
  main_loop_handshake my_privkey pubkey w = Raises AssertionError w1.
Proof.
  intros Hact1 Hread Hbad.
  unfold main_loop_handshake. cbv zeta.
  unfold bind at 1. unfold lift at 1. rewrite Hact1. cbv beta iota.
  unfold bind at 1. unfold writer_write at 1. cbv beta iota.
  unfold bind at 1. rewrite Hread.
  unfold bind at 1. unfold lift at 1. unfold assert_ at 1.
  destruct (Nat.eqb_spec (length rspns) 50) as [Hl | Hl]; [| reflexivity].
  unfold bind at 1. unfold lift at 1. unfold assert_ at 1.
  destruct (ChaCha20Poly1305.bytes_eqb [nth 0 rspns 0] handshake_version) eqn:Ev;
    [| reflexivity].
  apply bytes_eqb_eq in Ev. injection Ev as Ev.
  destruct Hbad; contradiction.
Qed.

(** C6, as stated, fails: the 50 bytes of [test_act2] complete the
    handshake when one read delivers them; the same 50 bytes in two reads
    of 25 bytes are refused at the first read, and so are the 50 bytes
    followed in the same read by 3 more, which are gone from the stream
    with them. *)
Lemma main_loop_refuses_a_valid_act2_reply_in_two_reads :
  length test_act2 = 50%nat
  /\ main_loop_handshake (EC := Secp256k1.curve) test_privkey bolt8_rs_pub
       (mkWorld [test_act2] [] [])
     = Returns (fst test_keys, snd test_keys)
         (mkWorld [] (firstn 2 (writer test_final)) [])
  /\ main_loop_handshake (EC := Secp256k1.curve) test_privkey bolt8_rs_pub
       (mkWorld [firstn 25 test_act2; skipn 25 test_act2] [] [])
     = Raises AssertionError (mkWorld [skipn 25 test_act2] [fst test_act1] [])
  /\ main_loop_handshake (EC := Secp256k1.curve) test_privkey bolt8_rs_pub
       (mkWorld [test_act2 ++ [1; 2; 3]] [] [])
     = Raises AssertionError (mkWorld [] [fst test_act1] []).
Proof.
  split; [reflexivity |].
  split; [exact test_handshake_ok |].
  split.
  - apply (main_loop_handshake_bad_reply (EC := Secp256k1.curve)
             test_privkey bolt8_rs_pub _ _ (fst test_act1) (snd test_act1)
             (firstn 25 test_act2)).
    + exact test_act1_ok.
    + vm_compute; reflexivity.
    + left. vm_compute. discriminate.
  - apply (main_loop_handshake_bad_reply (EC := Secp256k1.curve)
             test_privkey bolt8_rs_pub _ _ (fst test_act1) (snd test_act1)
             (test_act2 ++ [1; 2; 3])).
    + exact test_act1_ok.
    + vm_compute; reflexivity.
    + left. vm_compute. discriminate.
Qed.
